(** * Encoding-aware line-set engine of the dictionary CLI

    A shallow embedding of [cli.js] and [detectEncoding.js]:

    - the encoding classifier [detectEncoding] (UTF-8 first, then
      Windows-1251, gated by a Cyrillic-presence test);
    - the three line-set operations behind the commands [add], [delete] and
      [sort] (bodies of [addWords], [deleteWords], [sortDictionary]);
    - the commands themselves, as programs of a small state/exception monad
      over a disk of files, with the trace of file-system events.

    JavaScript strings are sequences of UTF-16 code units ([list Z]); byte
    buffers are [list byte]. *)

From stdpp Require Import base numbers list strings gmap sorting.
From Stdlib Require Import Init.Byte.

Set Default Proof Using "Type".

(** ** Bytes and strings *)

Abbreviation jsstring := (list Z).

Definition byte_val (b : byte) : Z := Z.of_N (Byte.to_N b).

Definition byte_of_Z (z : Z) : byte :=
  default x00 (Byte.of_N (Z.to_N z)).

Definition U_FFFD : Z := 0xFFFD.

Global Instance byte_eq_dec : EqDecision byte := Byte.byte_eq_dec.

(** ** The labels returned by [detectEncoding] *)

Inductive EncodingLabel : Type :=
  | utf8          (* 'utf-8' *)
  | windows1251   (* 'windows-1251' *)
  | unknown.      (* 'unknown' *)

Global Instance EncodingLabel_eq_dec : EqDecision EncodingLabel.
Proof. solve_decision. Defined.

Definition label_name (l : EncodingLabel) : string :=
  match l with
  | utf8 => "utf-8"
  | windows1251 => "windows-1251"
  | unknown => "unknown"
  end.

Module Utf8.
Local Open Scope Z_scope.

(** [buffer.toString('utf8')]: the decoder never throws; every maximal
    ill-formed subsequence is replaced by one U+FFFD.  The decoder is
    written as the byte-at-a-time state machine of the Encoding standard.
    An item is [Some cp] for a decoded scalar value and [None] for a
    decoding error. *)
Record state : Type := State {
  code_point : Z;
  bytes_seen : Z;
  bytes_needed : Z;
  lower_boundary : Z;
  upper_boundary : Z
}.

Definition init : state := State 0 0 0 0x80 0xBF.

(** A byte met when no sequence is open. *)
Definition lead (b : Z) : state * list (option Z) :=
  if b <=? 0x7F then (init, [Some b])
  else if (0xC2 <=? b) && (b <=? 0xDF) then
    (State (Z.land b 0x1F) 0 1 0x80 0xBF, [])
  else if (0xE0 <=? b) && (b <=? 0xEF) then
    (State (Z.land b 0xF) 0 2
           (if b =? 0xE0 then 0xA0 else 0x80)
           (if b =? 0xED then 0x9F else 0xBF), [])
  else if (0xF0 <=? b) && (b <=? 0xF4) then
    (State (Z.land b 0x7) 0 3
           (if b =? 0xF0 then 0x90 else 0x80)
           (if b =? 0xF4 then 0x8F else 0xBF), [])
  else (init, [None]).

(** One byte.  A byte outside the expected continuation range closes the
    open sequence with an error and is then read again as a lead byte. *)
Definition step (st : state) (b : Z) : state * list (option Z) :=
  if bytes_needed st =? 0 then lead b
  else if (b <? lower_boundary st) || (upper_boundary st <? b) then
    let '(st', out) := lead b in (st', None :: out)
  else
    let cp := Z.lor (Z.shiftl (code_point st) 6) (Z.land b 0x3F) in
    if bytes_seen st + 1 =? bytes_needed st then (init, [Some cp])
    else (State cp (bytes_seen st + 1) (bytes_needed st) 0x80 0xBF, []).

Fixpoint run (st : state) (buffer : list byte) : list (option Z) :=
  match buffer with
  | [] => if bytes_needed st =? 0 then [] else [None]
  | b :: rest =>
      let '(st', out) := step st (byte_val b) in
      out ++ run st' rest
  end.

Definition items (buffer : list byte) : list (option Z) := run init buffer.

(** UTF-16 code units of a scalar value. *)
Definition code_units (cp : Z) : list Z :=
  if cp <? 0x10000 then [cp]
  else
    let v := cp - 0x10000 in
    [0xD800 + Z.shiftr v 10; 0xDC00 + Z.land v 0x3FF].

Definition item_units (it : option Z) : list Z :=
  match it with
  | Some cp => code_units cp
  | None => [U_FFFD]
  end.

Definition toString (buffer : list byte) : list Z :=
  flat_map item_units (items buffer).

(** A buffer is well-formed UTF-8 when decoding meets no error. *)
Definition valid (buffer : list byte) : Prop :=
  Forall (λ it, it ≠ None) (items buffer).

Global Instance valid_dec buffer : Decision (valid buffer).
Proof. unfold valid. apply _. Defined.
End Utf8.

Module Windows1251.
Local Open Scope Z_scope.

(** The upper half (bytes 0x80..0xFF) of the single-byte table that
    [iconv.decode(buffer, 'windows-1251')] uses.  Byte 0x98 has no
    character in the code page and decodes to U+FFFD. *)
Definition high_table : list Z :=
  [ 0x0402; 0x0403; 0x201A; 0x0453; 0x201E; 0x2026; 0x2020; 0x2021;
    0x20AC; 0x2030; 0x0409; 0x2039; 0x040A; 0x040C; 0x040B; 0x040F;
    0x0452; 0x2018; 0x2019; 0x201C; 0x201D; 0x2022; 0x2013; 0x2014;
    0xFFFD; 0x2122; 0x0459; 0x203A; 0x045A; 0x045C; 0x045B; 0x045F;
    0x00A0; 0x040E; 0x045E; 0x0408; 0x00A4; 0x0490; 0x00A6; 0x00A7;
    0x0401; 0x00A9; 0x0404; 0x00AB; 0x00AC; 0x00AD; 0x00AE; 0x0407;
    0x00B0; 0x00B1; 0x0406; 0x0456; 0x0491; 0x00B5; 0x00B6; 0x00B7;
    0x0451; 0x2116; 0x0454; 0x00BB; 0x0458; 0x0405; 0x0455; 0x0457;
    0x0410; 0x0411; 0x0412; 0x0413; 0x0414; 0x0415; 0x0416; 0x0417;
    0x0418; 0x0419; 0x041A; 0x041B; 0x041C; 0x041D; 0x041E; 0x041F;
    0x0420; 0x0421; 0x0422; 0x0423; 0x0424; 0x0425; 0x0426; 0x0427;
    0x0428; 0x0429; 0x042A; 0x042B; 0x042C; 0x042D; 0x042E; 0x042F;
    0x0430; 0x0431; 0x0432; 0x0433; 0x0434; 0x0435; 0x0436; 0x0437;
    0x0438; 0x0439; 0x043A; 0x043B; 0x043C; 0x043D; 0x043E; 0x043F;
    0x0440; 0x0441; 0x0442; 0x0443; 0x0444; 0x0445; 0x0446; 0x0447;
    0x0448; 0x0449; 0x044A; 0x044B; 0x044C; 0x044D; 0x044E; 0x044F ].

Definition char (b : Z) : Z :=
  if b <? 0x80 then b
  else nth (Z.to_nat (b - 0x80)) high_table U_FFFD.

Definition decode (buffer : list byte) : list Z :=
  map (λ b, char (byte_val b)) buffer.
End Windows1251.

(** ** The two regular expressions of [detectEncoding] *)

Section Regexes.
Local Open Scope Z_scope.

(** The class [[А-Яа-я]]: the code units U+0410..U+042F and
    U+0430..U+044F. *)
Definition in_class_A_Ya_a_ya (c : Z) : bool :=
  ((0x0410 <=? c) && (c <=? 0x042F)) || ((0x0430 <=? c) && (c <=? 0x044F)).

(** [/[А-Яа-я]/.test(s)] *)
Definition test_cyrillic (s : list Z) : bool := existsb in_class_A_Ya_a_ya s.

(** [/�/.test(s)] *)
Definition test_replacement (s : list Z) : bool := existsb (Z.eqb U_FFFD) s.
End Regexes.

(** ** [detectEncoding], from the buffer on (the body between the read and
    the outer [catch]) *)

Definition classify (buffer : list byte) : EncodingLabel :=
  let utf8Decoded := Utf8.toString buffer in
  if test_cyrillic utf8Decoded && negb (test_replacement utf8Decoded) then utf8
  else
    let windows1251Decoded := Windows1251.decode buffer in
    if test_cyrillic windows1251Decoded
       && negb (test_replacement windows1251Decoded)
    then windows1251
    else unknown.

(** ** The line-set engine

    [Set] keeps its members in insertion order, which is the order
    [Array.from] reads them back in; membership is exact string equality. *)

Definition Set_has (s : list jsstring) (value : jsstring) : bool :=
  bool_decide (value ∈ s).

Definition Set_add (s : list jsstring) (value : jsstring) : list jsstring :=
  if Set_has s value then s else s ++ [value].

(** [new Set(iterable)] *)
Definition new_Set (values : list jsstring) : list jsstring :=
  foldl Set_add [] values.

Record AddResult : Type := mkAddResult {
  add_sortedWords : list jsstring;
  add_originalCount : Z;
  add_addedCount : Z
}.

Record DeleteResult : Type := mkDeleteResult {
  del_result : list jsstring;
  del_deletedCount : Z
}.

Record SortResult : Type := mkSortResult {
  sort_sortedWords : list jsstring;
  sort_duplicatesRemoved : Z
}.

Definition len {A} (l : list A) : Z := Z.of_nat (length l).

Section LineSetEngine.
(** [a.localeCompare(b, 'ru')]: negative, zero or positive. *)
Variable localeCompare : jsstring → jsstring → Z.

(** [Array.prototype.sort(compareFn)] is stable; with a consistent
    comparator every stable sort returns the same array, here computed by
    insertion from the right. An element goes in front of the first
    element it does not follow. *)
Fixpoint sort_insert (x : jsstring) (sorted : list jsstring)
  : list jsstring :=
  match sorted with
  | [] => [x]
  | y :: rest =>
      if (localeCompare x y <=? 0)%Z then x :: y :: rest
      else y :: sort_insert x rest
  end.

Definition Array_sort (a : list jsstring) : list jsstring :=
  foldr sort_insert [] a.

(** [a] does not collate after [b]. *)
Definition precedes (a b : jsstring) : Prop := (localeCompare a b ≤ 0)%Z.

(** One turn of the loop [for (const word of newLines)] of [addWords]. *)
Definition add_word (st : list jsstring * Z) (word : jsstring)
  : list jsstring * Z :=
  let '(wordSet, addedCount) := st in
  if negb (Set_has wordSet word)
  then (Set_add wordSet word, (addedCount + 1)%Z)
  else (wordSet, addedCount).

(** [addWords], from the lines read to the array written (Merge). *)
Definition merge (dictLines newLines : list jsstring) : AddResult :=
  let wordSet := new_Set dictLines in
  let originalCount := len wordSet in
  let '(wordSet, addedCount) := foldl add_word (wordSet, 0%Z) newLines in
  let sortedWords := Array_sort wordSet in
  mkAddResult sortedWords originalCount addedCount.

(** [sortDictionary], from the lines read to the array written
    (Normalize). *)
Definition normalize (lines : list jsstring) : SortResult :=
  let uniqueWords := new_Set lines in
  let sortedWords := Array_sort uniqueWords in
  let duplicatesRemoved := (len lines - len sortedWords)%Z in
  mkSortResult sortedWords duplicatesRemoved.
End LineSetEngine.

(** [deleteWords], from the lines read to the array written (Subtract). *)
Definition subtract (dictLines deleteLines : list jsstring) : DeleteResult :=
  let deleteSet := new_Set deleteLines in
  let result :=
    List.filter (λ word, negb (Set_has deleteSet word)) dictLines in
  let deletedCount := (len dictLines - len result)%Z in
  mkDeleteResult result deletedCount.

(** The lines of [P] that are members of [R], each as often as it occurs
    in [P], and the set of them. *)
Definition common_lines (P R : list jsstring) : list jsstring :=
  filter (λ x, x ∈ R) P.

Definition common_set (P R : list jsstring) : gset jsstring :=
  list_to_set (common_lines P R).

(** The distinct lines of [B] that [A] does not hold. *)
Definition new_set (A B : list jsstring) : gset jsstring :=
  list_to_set B ∖ list_to_set A.

(** ** The host: library functions the commands call *)

Record Host : Type := mkHost {
  (** [String.prototype.localeCompare] with locale ['ru'] *)
  localeCompare : jsstring → jsstring → Z;
  (** the text an [iconv.decodeStream] of a recognised encoding produces
      from the bytes of a file *)
  decodeStream : EncodingLabel → list byte → jsstring;
  (** the lines [readline] cuts a text into ([crlfDelay: Infinity]) *)
  readline : jsstring → list jsstring;
  (** the bytes an [iconv.encodeStream] of a recognised encoding produces *)
  encodeStream : EncodingLabel → jsstring → list byte
}.

(** [String.prototype.trim] removes white space and line terminators. *)
Definition is_white_space (c : Z) : bool :=
  bool_decide (c ∈ [0x09; 0x0A; 0x0B; 0x0C; 0x0D; 0x20; 0xA0; 0x1680;
                    0x2028; 0x2029; 0x202F; 0x205F; 0x3000; 0xFEFF]%Z)
  || ((0x2000 <=? c)%Z && (c <=? 0x200A)%Z).

Fixpoint trim_start (s : jsstring) : jsstring :=
  match s with
  | c :: rest => if is_white_space c then trim_start rest else s
  | [] => []
  end.

Definition trim (s : jsstring) : jsstring :=
  rev (trim_start (rev (trim_start s))).

(** A string is truthy when it is not empty. *)
Definition truthy (s : jsstring) : bool :=
  match s with [] => false | _ => true end.

(** ** Files, events and the command monad *)

Record File : Type := mkFile {
  readable : bool;
  writable : bool;
  content : list byte
}.

Abbreviation Disk := (gmap string File).

Inductive Error : Type :=
  | ENOENT (path : string)
  | EACCES (path : string)
  | EncodingNotRecognized (name : string).

Inductive Event : Type :=
  | EvReadFile (path : string)
  | EvCreateReadStream (path : string)
  | EvCreateWriteStream (path : string)
  | EvWrite (path : string) (encoding : EncodingLabel) (lines : list jsstring)
  | EvSummary (changed total : Z).

Global Instance Event_eq_dec : EqDecision Event.
Proof. solve_decision. Defined.

(** A computation ends with a value, with a thrown error, or with the
    process gone ([process.exit], or an error nobody listens to). *)
Inductive Outcome (A : Type) : Type :=
  | Ok (a : A)
  | Throw (e : Error)
  | Exit (code : Z).
Arguments Ok {A} a.
Arguments Throw {A} e.
Arguments Exit {A} code.

Definition IO (A : Type) : Type := Disk → Outcome A * Disk * list Event.

Definition io_ret {A} (a : A) : IO A := λ d, (Ok a, d, []).

Definition io_bind {A B} (f : A → IO B) (m : IO A) : IO B := λ d,
  let '(r, d1, e1) := m d in
  match r with
  | Ok a => let '(r2, d2, e2) := f a d1 in (r2, d2, e1 ++ e2)
  | Throw e => (Throw e, d1, e1)
  | Exit c => (Exit c, d1, e1)
  end.

Global Instance IO_ret : MRet IO := @io_ret.
Global Instance IO_bind : MBind IO := @io_bind.

Definition throw {A} (e : Error) : IO A := λ d, (Throw e, d, []).

Definition emit (ev : Event) : IO unit := λ d, (Ok (), d, [ev]).

(** [try { body } catch (error) { handler }] *)
Definition try_catch {A} (body : IO A) (handler : Error → IO A) : IO A := λ d,
  let '(r, d1, e1) := body d in
  match r with
  | Throw e => let '(r2, d2, e2) := handler e d1 in (r2, d2, e1 ++ e2)
  | _ => (r, d1, e1)
  end.

Definition process_exit {A} (code : Z) : IO A := λ d, (Exit code, d, []).

Definition outcome {A} (m : IO A) (d : Disk) : Outcome A := (m d).1.1.
Definition disk_after {A} (m : IO A) (d : Disk) : Disk := (m d).1.2.
Definition events {A} (m : IO A) (d : Disk) : list Event := (m d).2.

(** [readFile(filePath, { flag: 'r', encoding: null })] *)
Definition readFile (filePath : string) : IO (list byte) := λ d,
  match d !! filePath with
  | None => (Throw (ENOENT filePath), d, [EvReadFile filePath])
  | Some f =>
      if readable f then (Ok (content f), d, [EvReadFile filePath])
      else (Throw (EACCES filePath), d, [EvReadFile filePath])
  end.

(** [detectEncoding(filePath)]: the outer [catch] turns every error of the
    body into the label ['unknown']. *)
Definition detectEncoding (filePath : string) : IO EncodingLabel :=
  try_catch
    (buffer ← readFile filePath;
     mret (classify buffer))
    (λ error, mret unknown).

(** [iconv.getCodec]: ['utf-8'] and ['windows-1251'] are known encodings;
    ['unknown'] is not, and the lookup throws. *)
Definition iconv_getCodec (encoding : EncodingLabel) : IO unit :=
  match encoding with
  | unknown => throw (EncodingNotRecognized (label_name encoding))
  | _ => mret ()
  end.

(** The bytes a read stream delivers. The stream opens the file lazily; an
    error of the stream has no listener in [readFileLines] and ends the
    process. *)
Definition stream_bytes (filePath : string) : IO (list byte) := λ d,
  match d !! filePath with
  | Some f => if readable f then (Ok (content f), d, [])
              else (Exit 1, d, [])
  | None => (Exit 1, d, [])
  end.

(** The write side of [pipeline]: the file is opened with flag ['w'] and
    receives the whole encoded text. *)
Definition stream_write (filePath : string) (bytes : list byte) : IO unit :=
  λ d,
  match d !! filePath with
  | Some f =>
      if writable f
      then (Ok (), <[filePath := mkFile (readable f) true bytes]> d, [])
      else (Throw (EACCES filePath), d, [])
  | None => (Ok (), <[filePath := mkFile true true bytes]> d, [])
  end.

(** The text the generator of [writeFileLines] yields. *)
Definition joined (lines : list jsstring) : jsstring :=
  flat_map (λ line, line ++ [0x0A%Z]) lines.

Section Commands.
Variable host : Host.

(** The loop of [readFileLines] over the lines of the decoded stream:
    a line that trims to the empty string is skipped. *)
Definition decoded_lines (encoding : EncodingLabel) (bytes : list byte)
  : list jsstring :=
  let rl := readline host (decodeStream host encoding bytes) in
  List.filter (λ line, truthy (trim line)) rl.

Definition readFileLines (filePath : string) (encoding : EncodingLabel)
  : IO (list jsstring) :=
  emit (EvCreateReadStream filePath);;
  iconv_getCodec encoding;;
  bytes ← stream_bytes filePath;
  mret (decoded_lines encoding bytes).

(** [writeFileLines].  Limit of the model: with an encoding that iconv does
    not know, the source has created the write stream before
    [iconv.encodeStream] throws, so the file is truncated or created; here
    the disk is left as it was.  No command reaches that run, since
    [readFileLines] has thrown before, and the properties of
    [writeFileLines] below are stated for recognised encodings. *)
Definition writeFileLines (filePath : string) (lines : list jsstring)
    (encoding : EncodingLabel) : IO unit :=
  try_catch
    (emit (EvCreateWriteStream filePath);;
     iconv_getCodec encoding;;
     stream_write filePath (encodeStream host encoding (joined lines));;
     emit (EvWrite filePath encoding lines))
    (λ error, throw error).

Definition addWords (dictPath newWordsPath : string) : IO unit :=
  try_catch
    (dictEncoding ← detectEncoding dictPath;
     newWordsEncoding ← detectEncoding newWordsPath;
     dictLines ← readFileLines dictPath dictEncoding;
     newLines ← readFileLines newWordsPath newWordsEncoding;
     let r := merge (localeCompare host) dictLines newLines in
     writeFileLines dictPath (add_sortedWords r) dictEncoding;;
     emit (EvSummary (add_addedCount r) (len (add_sortedWords r))))
    (λ error, process_exit 1).

Definition deleteWords (dictPath wordsToDeletePath : string) : IO unit :=
  try_catch
    (dictEncoding ← detectEncoding dictPath;
     deleteEncoding ← detectEncoding wordsToDeletePath;
     dictLines ← readFileLines dictPath dictEncoding;
     deleteLines ← readFileLines wordsToDeletePath deleteEncoding;
     let r := subtract dictLines deleteLines in
     writeFileLines dictPath (del_result r) dictEncoding;;
     emit (EvSummary (del_deletedCount r) (len (del_result r))))
    (λ error, process_exit 1).

Definition sortDictionary (dictPath : string) : IO unit :=
  try_catch
    (encoding ← detectEncoding dictPath;
     lines ← readFileLines dictPath encoding;
     let r := normalize (localeCompare host) lines in
     writeFileLines dictPath (sort_sortedWords r) encoding;;
     emit (EvSummary (sort_duplicatesRemoved r) (len (sort_sortedWords r))))
    (λ error, process_exit 1).
End Commands.

(** ** [main]: the command line

    Console output is not part of the model; [printHelp] only prints. *)

Definition printHelp : IO unit := mret ().

(** [args[i]]. An argument that is not there is [undefined], which is
    falsy like the empty string; the paths [args[1]] and [args[2]] are
    read after the tests on [args.length]. *)
Definition arg (args : list string) (i : nat) : string :=
  default EmptyString (args !! i).

Definition main (host : Host) (args : list string) : IO unit :=
  let command := arg args 0 in
  if String.eqb command "" || (length args <? 2)%nat then
    printHelp;;
    process_exit (if (length args =? 0)%nat then 0 else 1)
  else
    try_catch
      (if String.eqb command "add" then
         (if (length args <? 3)%nat
          then printHelp;; process_exit 1
          else mret ());;
         addWords host (arg args 1) (arg args 2)
       else if String.eqb command "delete" then
         (if (length args <? 3)%nat
          then printHelp;; process_exit 1
          else mret ());;
         deleteWords host (arg args 1) (arg args 2)
       else if String.eqb command "sort" then
         sortDictionary host (arg args 1)
       else
         printHelp;; process_exit 1)
      (λ error, process_exit 1).

(** The command lines that reach a command. *)
Definition runs_command (args : list string) : Prop :=
  ((arg args 0 = "add" ∨ arg args 0 = "delete") ∧ 3 ≤ length args) ∨
  (arg args 0 = "sort" ∧ 2 ≤ length args).

(** ** Notions to state what a command does *)

(** The label [detectEncoding] gives for a file of the disk. *)
Definition detected (d : Disk) (filePath : string) : EncodingLabel :=
  match outcome (detectEncoding filePath) d with
  | Ok label => label
  | _ => unknown
  end.

(** The bytes of a file that can be read. *)
Definition file_bytes (d : Disk) (filePath : string) : list byte :=
  match d !! filePath with
  | Some f => content f
  | None => []
  end.

Definition is_read_event (ev : Event) : Prop :=
  match ev with
  | EvReadFile _ | EvCreateReadStream _ => True
  | _ => False
  end.

Definition is_write_event (ev : Event) : Prop :=
  match ev with
  | EvCreateWriteStream _ | EvWrite _ _ _ => True
  | _ => False
  end.

(** The runs of a command that reads, computes the lines [ls] and writes
    them to [dictPath] in the encoding [enc]: the run stops while reading;
    or the write stream is created and the write is refused; or the file
    receives the whole encoded text.  [reads] are the events before the
    write stream is created. *)
Inductive run_shape (host : Host) (d : Disk) (dictPath : string)
    (enc : EncodingLabel) (ls : list jsstring)
  : Outcome unit * Disk * list Event → Prop :=
  | shape_stopped reads :
      Forall is_read_event reads →
      run_shape host d dictPath enc ls (Exit 1, d, reads)
  | shape_refused reads :
      Forall is_read_event reads →
      enc ≠ unknown →
      run_shape host d dictPath enc ls
        (Exit 1, d, reads ++ [EvCreateWriteStream dictPath])
  | shape_written reads f changed total :
      Forall is_read_event reads →
      enc ≠ unknown →
      d !! dictPath = Some f →
      run_shape host d dictPath enc ls
        (Ok (),
         <[dictPath := mkFile (readable f) true
                         (encodeStream host enc (joined ls))]> d,
         reads ++ [EvCreateWriteStream dictPath; EvWrite dictPath enc ls;
                   EvSummary changed total]).

(** A run that ends with [process.exit(1)], changes no file and neither
    creates a write stream nor writes. *)
Definition leaves_untouched {A} (m : IO A) (d : Disk) : Prop :=
  outcome m d = Exit 1 ∧ disk_after m d = d ∧
  Forall (λ ev, ¬ is_write_event ev) (events m d).

(** Wherever a write stream is created in a run, it is the one of
    [dictPath]; all that comes before are reads and nothing is read after. *)
Definition writes_after_reads {A} (m : IO A) (d : Disk) (dictPath : string)
  : Prop :=
  ∀ pre p post,
    events m d = pre ++ EvCreateWriteStream p :: post →
    p = dictPath ∧ Forall is_read_event pre ∧
    Forall (λ ev, ¬ is_read_event ev) post.

(** ** The classification procedure as the specification words it

    The procedure is stated over a notion [letter] of Cyrillic letter, so
    that the wording of the specification and the test of the code can both
    be put in. *)

Definition has_letter (letter : Z → Prop) (text : jsstring) : Prop :=
  ∃ c, c ∈ text ∧ letter c.

Definition plausible (letter : Z → Prop) (text : jsstring) : Prop :=
  has_letter letter text ∧ U_FFFD ∉ text.

Inductive first_match (letter : Z → Prop) (buffer : list byte)
  : EncodingLabel → Prop :=
  | fm_utf8 :
      plausible letter (Utf8.toString buffer) →
      first_match letter buffer utf8
  | fm_windows1251 :
      ¬ plausible letter (Utf8.toString buffer) →
      plausible letter (Windows1251.decode buffer) →
      first_match letter buffer windows1251
  | fm_unknown :
      ¬ plausible letter (Utf8.toString buffer) →
      ¬ plausible letter (Windows1251.decode buffer) →
      first_match letter buffer unknown.

(** The characters the class [[А-Яа-я]] holds. *)
Definition in_A_ya (c : Z) : Prop :=
  (0x0410 ≤ c ≤ 0x042F)%Z ∨ (0x0430 ≤ c ≤ 0x044F)%Z.

(** The letters of the Russian alphabet: those of [in_A_ya], and Ё (U+0401)
    and ё (U+0451), which lie outside both ranges. *)
Definition spec_cyrillic_letter (c : Z) : Prop :=
  in_A_ya c ∨ c = 0x0401%Z ∨ c = 0x0451%Z.

Definition is_ascii (b : byte) : Prop := (byte_val b < 0x80)%Z.

(** ** A small host to run the commands on examples

    [localeCompare] orders strings letter by letter in alphabet order, with
    ё right after е; streams decode with the decoders above and cut lines
    at U+000A. *)
Module Sample.
Local Open Scope Z_scope.

Definition weight (c : Z) : Z :=
  if c =? 0x0451 then 2 * 0x0435 + 1
  else if c =? 0x0401 then 2 * 0x0415 + 1
  else 2 * c.

Fixpoint lex_compare (a b : list Z) : Z :=
  match a, b with
  | [], [] => 0
  | [], _ :: _ => -1
  | _ :: _, [] => 1
  | x :: a', y :: b' =>
      if x <? y then -1
      else if y <? x then 1
      else lex_compare a' b'
  end.

Definition compare (a b : jsstring) : Z :=
  lex_compare (map weight a) (map weight b).

Definition strip_bom (s : jsstring) : jsstring :=
  match s with
  | c :: rest => if c =? 0xFEFF then rest else s
  | [] => []
  end.

Definition decode (encoding : EncodingLabel) (bytes : list byte)
  : jsstring :=
  match encoding with
  | utf8 => strip_bom (Utf8.toString bytes)
  | windows1251 => Windows1251.decode bytes
  | unknown => []
  end.

Fixpoint lines_from (cur : jsstring) (s : jsstring) : list jsstring :=
  match s with
  | [] => match cur with [] => [] | _ => [rev cur] end
  | c :: rest =>
      if c =? 0x0A then rev cur :: lines_from [] rest
      else lines_from (c :: cur) rest
  end.

Definition lines (s : jsstring) : list jsstring := lines_from [] s.

Definition utf8_bytes (c : Z) : list byte :=
  if c <? 0x80 then [byte_of_Z c]
  else if c <? 0x800 then
    [byte_of_Z (Z.lor 0xC0 (Z.shiftr c 6));
     byte_of_Z (Z.lor 0x80 (Z.land c 0x3F))]
  else
    [byte_of_Z (Z.lor 0xE0 (Z.shiftr c 12));
     byte_of_Z (Z.lor 0x80 (Z.land (Z.shiftr c 6) 0x3F));
     byte_of_Z (Z.lor 0x80 (Z.land c 0x3F))].

Fixpoint index_of (c : Z) (table : list Z) (i : Z) : option Z :=
  match table with
  | [] => None
  | x :: rest => if x =? c then Some i else index_of c rest (i + 1)
  end.

Definition windows1251_byte (c : Z) : byte :=
  if c <? 0x80 then byte_of_Z c
  else byte_of_Z (default 0x3F (index_of c Windows1251.high_table 0x80)).

Definition encode (encoding : EncodingLabel) (s : jsstring) : list byte :=
  match encoding with
  | utf8 => flat_map utf8_bytes s
  | windows1251 => map windows1251_byte s
  | unknown => []
  end.

Definition host : Host := mkHost compare decode lines encode.

Definition plain (bytes : list byte) : File := mkFile true true bytes.

(** кот, пёс in UTF-8 *)
Definition dict_utf8 : list byte :=
  [xd0; xba; xd0; xbe; xd1; x82; x0a;
   xd0; xbf; xd1; x91; xd1; x81; x0a].

(** кот, лиса in Windows-1251 *)
Definition words_cp1251 : list byte :=
  [xea; xee; xf2; x0a; xeb; xe8; xf1; xe0; x0a].

(** a list of numbers, no Cyrillic letter *)
Definition digits : list byte := [x31; x32; x0a; x33; x0a].

Definition disk : Disk :=
  <["dict.txt" := plain dict_utf8]>
    (<["new.txt" := plain words_cp1251]>
       (<["numbers.txt" := plain digits]> ∅)).

Definition kot : jsstring := [0x043A; 0x043E; 0x0442].
Definition lisa : jsstring := [0x043B; 0x0438; 0x0441; 0x0430].
Definition pyos : jsstring := [0x043F; 0x0451; 0x0441].
Definition banan : jsstring := [0x0431; 0x0430; 0x043D; 0x0430; 0x043D].
Definition yabloko : jsstring :=
  [0x044F; 0x0431; 0x043B; 0x043E; 0x043A; 0x043E].
Definition grusha : jsstring := [0x0433; 0x0440; 0x0443; 0x0448; 0x0430].
Definition word_a : jsstring := [0x0430].
Definition word_b : jsstring := [0x0431].
Definition word_v : jsstring := [0x0432].
End Sample.

(** * Properties *)

(** ** The classifier *)

Example classify_kot_utf8 :
  classify [xd0; xba; xd0; xbe; xd1; x82] = utf8.
Proof. reflexivity. Qed.

Example classify_kot_cp1251 : classify [xea; xee; xf2] = windows1251.
Proof. reflexivity. Qed.

Example classify_digits : classify Sample.digits = unknown.
Proof. reflexivity. Qed.

Example classify_truncated_utf8 : classify [xd0] = windows1251.
Proof. reflexivity. Qed.

Example classify_byte_98 : classify [xea; xee; xf2; x98] = unknown.
Proof. reflexivity. Qed.

Example toString_astral :
  Utf8.toString [xf0; x9f; x98; x80] = [0xD83D; 0xDE00]%Z.
Proof. reflexivity. Qed.

Example toString_overlong :
  Utf8.toString [xc0; x80] = [U_FFFD; U_FFFD].
Proof. reflexivity. Qed.

Example toString_surrogate :
  Utf8.toString [xed; xa0; x80] = [U_FFFD; U_FFFD; U_FFFD].
Proof. reflexivity. Qed.

Example toString_cut_short :
  Utf8.toString [xe2; x82; x41] = [U_FFFD; 0x41%Z].
Proof. reflexivity. Qed.

Example toString_euro : Utf8.toString [xe2; x82; xac] = [0x20AC%Z].
Proof. reflexivity. Qed.

Example add_sample :
  events (addWords Sample.host "dict.txt" "new.txt") Sample.disk =
    [EvReadFile "dict.txt"; EvReadFile "new.txt";
     EvCreateReadStream "dict.txt"; EvCreateReadStream "new.txt";
     EvCreateWriteStream "dict.txt";
     EvWrite "dict.txt" utf8 [Sample.kot; Sample.lisa; Sample.pyos];
     EvSummary 1 3].
Proof. vm_compute. reflexivity. Qed.

Example normalize_sample :
  normalize Sample.compare [Sample.banan; Sample.yabloko; Sample.grusha] =
    mkSortResult [Sample.banan; Sample.grusha; Sample.yabloko] 0.
Proof. reflexivity. Qed.

Lemma byte_val_range (b : byte) : (0 ≤ byte_val b < 256)%Z.
Proof.
  unfold byte_val. pose proof (Byte.to_N_bounded b). lia.
Qed.

Lemma in_class_spec (c : Z) : in_class_A_Ya_a_ya c = true ↔ in_A_ya c.
Proof. unfold in_class_A_Ya_a_ya, in_A_ya. lia. Qed.

Lemma test_cyrillic_spec (s : jsstring) :
  test_cyrillic s = true ↔ has_letter in_A_ya s.
Proof.
  unfold test_cyrillic, has_letter. rewrite existsb_exists.
  split; intros (c & Hc & Hl); exists c.
  - by rewrite list_elem_of_In, <- in_class_spec.
  - by rewrite <- list_elem_of_In, in_class_spec.
Qed.

Lemma test_replacement_spec (s : jsstring) :
  test_replacement s = true ↔ U_FFFD ∈ s.
Proof.
  unfold test_replacement. rewrite existsb_exists, list_elem_of_In.
  split.
  - intros (c & Hc & Heq). apply Z.eqb_eq in Heq. by subst.
  - intros Hin. exists U_FFFD. split; [done | apply Z.eqb_refl].
Qed.

Lemma plausible_spec (s : jsstring) :
  test_cyrillic s && negb (test_replacement s) = true ↔ plausible in_A_ya s.
Proof.
  unfold plausible.
  rewrite andb_true_iff, negb_true_iff, test_cyrillic_spec.
  rewrite <- test_replacement_spec, not_true_iff_false. done.
Qed.

Lemma plausible_dec (s : jsstring) :
  plausible in_A_ya s ∨ ¬ plausible in_A_ya s.
Proof.
  rewrite <- plausible_spec.
  destruct (test_cyrillic s && negb (test_replacement s)); auto.
Qed.

(** On a buffer of 7-bit bytes both decoders return the bytes themselves. *)
Lemma Utf8_run_ascii (buffer : list byte) :
  Forall is_ascii buffer →
  Utf8.run Utf8.init buffer = map (λ b, Some (byte_val b)) buffer.
Proof.
  induction 1 as [| b rest Hb _ IH]; [done |].
  unfold is_ascii in Hb. cbn [Utf8.run map].
  unfold Utf8.step, Utf8.lead. cbn [Utf8.bytes_needed Utf8.init].
  rewrite Z.eqb_refl.
  destruct (Z.leb_spec (byte_val b) 0x7F) as [_ | Hgt]; [| lia].
  cbn [app]. by rewrite IH.
Qed.

Lemma Utf8_toString_ascii (buffer : list byte) :
  Forall is_ascii buffer → Utf8.toString buffer = map byte_val buffer.
Proof.
  intros Hascii. unfold Utf8.toString, Utf8.items.
  rewrite (Utf8_run_ascii _ Hascii).
  induction Hascii as [| b rest Hb _ IH]; [done |].
  cbn [map flat_map]. rewrite IH.
  unfold Utf8.item_units, Utf8.code_units, is_ascii in *.
  destruct (Z.ltb_spec (byte_val b) 0x10000); [done | lia].
Qed.

Lemma Windows1251_decode_ascii (buffer : list byte) :
  Forall is_ascii buffer → Windows1251.decode buffer = map byte_val buffer.
Proof.
  unfold Windows1251.decode.
  induction 1 as [| b rest Hb _ IH]; [done |].
  cbn [map]. rewrite IH. f_equal.
  unfold Windows1251.char, is_ascii in *.
  destruct (Z.ltb_spec (byte_val b) 0x80); [done | lia].
Qed.

Lemma ascii_no_letter (buffer : list byte) :
  Forall is_ascii buffer → ¬ has_letter in_A_ya (map byte_val buffer).
Proof.
  intros Hascii (c & Hc & Hl).
  apply list_elem_of_fmap in Hc as (b & -> & Hb).
  rewrite Forall_forall in Hascii. specialize (Hascii b Hb).
  unfold is_ascii, in_A_ya in *. lia.
Qed.

Lemma classify_first_match (buffer : list byte) :
  first_match in_A_ya buffer (classify buffer).
Proof.
  unfold classify.
  destruct (test_cyrillic (Utf8.toString buffer)
            && negb (test_replacement (Utf8.toString buffer))) eqn:Hu.
  - apply fm_utf8. by apply plausible_spec.
  - assert (¬ plausible in_A_ya (Utf8.toString buffer)) as Hnu.
    { rewrite <- plausible_spec. congruence. }
    destruct (test_cyrillic (Windows1251.decode buffer)
              && negb (test_replacement (Windows1251.decode buffer))) eqn:Hw.
    + apply fm_windows1251; [done |]. by apply plausible_spec.
    + apply fm_unknown; [done |]. rewrite <- plausible_spec. congruence.
Qed.

Lemma first_match_functional (letter : Z → Prop) (buffer : list byte)
    (l1 l2 : EncodingLabel) :
  first_match letter buffer l1 → first_match letter buffer l2 → l1 = l2.
Proof. destruct 1; destruct 1; done. Qed.

Lemma classify_ascii (buffer : list byte) :
  Forall is_ascii buffer → classify buffer = unknown.
Proof.
  intros Hascii.
  apply (first_match_functional in_A_ya buffer);
    [apply classify_first_match |].
  apply fm_unknown.
  - rewrite Utf8_toString_ascii by done.
    intros [Hl _]. by apply (ascii_no_letter buffer).
  - rewrite Windows1251_decode_ascii by done.
    intros [Hl _]. by apply (ascii_no_letter buffer).
Qed.

(** C1 (as amended): classification is the ordered, first-match procedure
    in which "contains a Cyrillic letter" means "contains a code unit of
    А–Я or а–я (U+0410–U+042F, U+0430–U+044F)": a plausible UTF-8 reading
    gives [utf8]; failing that, a plausible Windows-1251 reading gives
    [windows1251]; failing both, [unknown].  A buffer plausible under both
    readings is [utf8]; a buffer of 7-bit bytes, and the empty buffer, are
    [unknown]. *)
Theorem classify_ordered_first_match (buffer : list byte) :
  first_match in_A_ya buffer (classify buffer) ∧
  (plausible in_A_ya (Utf8.toString buffer) →
   plausible in_A_ya (Windows1251.decode buffer) →
   classify buffer = utf8) ∧
  (Forall is_ascii buffer → classify buffer = unknown) ∧
  classify [] = unknown.
Proof.
  split; [apply classify_first_match |].
  split; [| split; [apply classify_ascii | reflexivity]].
  intros Hu _.
  apply (first_match_functional in_A_ya buffer);
    [apply classify_first_match | by apply fm_utf8].
Qed.

Lemma classify_ordered_first_match_witness :
  plausible in_A_ya (Utf8.toString [xd0; xba; xd0; xbe; xd1; x82]) ∧
  plausible in_A_ya (Windows1251.decode [xd0; xba; xd0; xbe; xd1; x82]) ∧
  classify [xd0; xba; xd0; xbe; xd1; x82] = utf8 ∧
  Forall is_ascii Sample.digits ∧
  classify Sample.digits = unknown.
Proof.
  destruct (classify_ordered_first_match [xd0; xba; xd0; xbe; xd1; x82])
    as (_ & Hboth & _).
  destruct (classify_ordered_first_match Sample.digits)
    as (_ & _ & Hascii & _).
  assert (plausible in_A_ya (Utf8.toString [xd0; xba; xd0; xbe; xd1; x82]))
    as Hu by (apply plausible_spec; reflexivity).
  assert (plausible in_A_ya
            (Windows1251.decode [xd0; xba; xd0; xbe; xd1; x82]))
    as Hw by (apply plausible_spec; reflexivity).
  assert (Forall is_ascii Sample.digits) as Hd
    by (repeat constructor).
  split; [exact Hu |]. split; [exact Hw |].
  split; [exact (Hboth Hu Hw) |].
  split; [exact Hd | exact (Hascii Hd)].
Defined.

(** C1 (as stated) fails: the two bytes D1 91 are the UTF-8 form of ё.
    Read as UTF-8 the text is one Cyrillic letter and holds no replacement
    character, yet the label is [windows1251]. *)
Lemma classify_yo_counterexample :
  Utf8.toString [xd1; x91] = [0x0451%Z] ∧
  plausible spec_cyrillic_letter (Utf8.toString [xd1; x91]) ∧
  classify [xd1; x91] = windows1251 ∧
  ¬ first_match spec_cyrillic_letter [xd1; x91] (classify [xd1; x91]).
Proof.
  assert (plausible spec_cyrillic_letter (Utf8.toString [xd1; x91])) as Hp.
  { split.
    - exists 0x0451%Z. split; [by apply list_elem_of_singleton |].
      right; by right.
    - by intros Hin%list_elem_of_singleton. }
  repeat split; try apply Hp; try reflexivity.
  change (classify [xd1; x91]) with windows1251.
  inversion 1 as [| Hno _ |]. by apply Hno.
Qed.

(** C10: there are well-formed UTF-8 buffers whose text holds Cyrillic
    letters, all of them ё or Ё, that are not labelled [utf8]: the class
    [[А-Яа-я]] is exactly the two ranges U+0410–U+042F and U+0430–U+044F,
    and neither ё (U+0451) nor Ё (U+0401) is in them. *)
Theorem yo_buffer_not_utf8 :
  (∃ buffer,
     Utf8.valid buffer ∧
     has_letter spec_cyrillic_letter (Utf8.toString buffer) ∧
     (∀ c, c ∈ Utf8.toString buffer → spec_cyrillic_letter c →
           c = 0x0451%Z ∨ c = 0x0401%Z) ∧
     classify buffer ≠ utf8) ∧
  Utf8.toString [xd1; x91] = [0x0451%Z] ∧
  classify [xd1; x91] ≠ utf8 ∧
  Utf8.toString [xd0; x81] = [0x0401%Z] ∧
  classify [xd0; x81] ≠ utf8 ∧
  (∀ c, in_class_A_Ya_a_ya c = true ↔ in_A_ya c) ∧
  in_class_A_Ya_a_ya 0x0451 = false ∧
  in_class_A_Ya_a_ya 0x0401 = false.
Proof.
  split; [| repeat split; try done; apply in_class_spec].
  exists [xd1; x91; xd0; x81]. repeat split.
  - unfold Utf8.valid. by repeat constructor.
  - exists 0x0451%Z. split; [| right; by right].
    change (Utf8.toString [xd1; x91; xd0; x81]) with [0x0451%Z; 0x0401%Z].
    apply list_elem_of_here.
  - change (Utf8.toString [xd1; x91; xd0; x81]) with [0x0451%Z; 0x0401%Z].
    intros c Hc _.
    apply elem_of_cons in Hc as [-> | Hc]; [by left |].
    apply list_elem_of_singleton in Hc as ->. by right.
  - done.
Qed.

(** ** [Set]: insertion order, no duplicate *)

Lemma Set_has_spec (s : list jsstring) (w : jsstring) :
  Set_has s w = true ↔ w ∈ s.
Proof. unfold Set_has. apply bool_decide_eq_true. Qed.

Lemma Set_add_old (s : list jsstring) (w : jsstring) :
  w ∈ s → Set_add s w = s.
Proof. intros Hin. unfold Set_add. by rewrite (proj2 (Set_has_spec s w)). Qed.

Lemma Set_add_new (s : list jsstring) (w : jsstring) :
  w ∉ s → Set_add s w = s ++ [w].
Proof.
  intros Hnin. unfold Set_add.
  destruct (Set_has s w) eqn:Hhas; [| done].
  by apply Set_has_spec in Hhas.
Qed.

Lemma Set_add_elem (s : list jsstring) (w x : jsstring) :
  x ∈ Set_add s w ↔ x ∈ s ∨ x = w.
Proof.
  destruct (decide (w ∈ s)) as [Hin | Hnin].
  - rewrite Set_add_old by done. split; [by left |].
    intros [Hx | ->]; done.
  - rewrite Set_add_new, elem_of_app, list_elem_of_singleton by done. done.
Qed.

Lemma Set_add_NoDup (s : list jsstring) (w : jsstring) :
  NoDup s → NoDup (Set_add s w).
Proof.
  intros Hs. destruct (decide (w ∈ s)) as [Hin | Hnin].
  - by rewrite Set_add_old.
  - rewrite Set_add_new by done. apply NoDup_app. split; [done |].
    split; [| apply NoDup_singleton].
    intros x Hx ->%list_elem_of_singleton. done.
Qed.

Lemma foldl_Set_add_elem (l s : list jsstring) (x : jsstring) :
  x ∈ foldl Set_add s l ↔ x ∈ s ∨ x ∈ l.
Proof.
  revert s. induction l as [| w l IH]; intros s; cbn [foldl].
  - rewrite elem_of_nil. tauto.
  - rewrite IH, Set_add_elem, elem_of_cons. tauto.
Qed.

Lemma foldl_Set_add_NoDup (l s : list jsstring) :
  NoDup s → NoDup (foldl Set_add s l).
Proof.
  revert s. induction l as [| w l IH]; intros s Hs; cbn [foldl]; [done |].
  by apply IH, Set_add_NoDup.
Qed.

Lemma foldl_Set_add_fresh (l s : list jsstring) :
  NoDup (s ++ l) → foldl Set_add s l = s ++ l.
Proof.
  revert s. induction l as [| w l IH]; intros s Hnd; cbn [foldl].
  - by rewrite app_nil_r.
  - assert (w ∉ s) as Hw.
    { apply NoDup_app in Hnd as (_ & Hdisj & _).
      intros Hin. apply (Hdisj w Hin), list_elem_of_here. }
    rewrite Set_add_new by done.
    rewrite IH; rewrite <- app_assoc; done.
Qed.

Lemma new_Set_elem (l : list jsstring) (x : jsstring) :
  x ∈ new_Set l ↔ x ∈ l.
Proof. unfold new_Set. rewrite foldl_Set_add_elem, elem_of_nil. tauto. Qed.

Lemma new_Set_NoDup (l : list jsstring) : NoDup (new_Set l).
Proof. apply foldl_Set_add_NoDup, NoDup_nil_2. Qed.

Lemma new_Set_fresh (l : list jsstring) : NoDup l → new_Set l = l.
Proof. intros Hnd. unfold new_Set. by rewrite foldl_Set_add_fresh. Qed.

Lemma NoDup_len_size (l : list jsstring) :
  NoDup l → len l = Z.of_nat (size (list_to_set l : gset jsstring)).
Proof. intros Hnd. unfold len. by rewrite size_list_to_set. Qed.

Lemma new_Set_len (l : list jsstring) :
  len (new_Set l) = Z.of_nat (size (list_to_set l : gset jsstring)).
Proof.
  rewrite NoDup_len_size by apply new_Set_NoDup. do 2 f_equal.
  apply set_eq. intros x. by rewrite !elem_of_list_to_set, new_Set_elem.
Qed.

Lemma new_Set_len_le (l : list jsstring) : (len (new_Set l) ≤ len l)%Z.
Proof.
  unfold len. apply inj_le.
  apply submseteq_length, NoDup_submseteq; [apply new_Set_NoDup |].
  intros x. by rewrite new_Set_elem.
Qed.

(** ** The loop of [addWords] *)

Lemma add_word_old (s : list jsstring) (n : Z) (w : jsstring) :
  w ∈ s → add_word (s, n) w = (s, n).
Proof.
  intros Hin. unfold add_word. by rewrite (proj2 (Set_has_spec s w)).
Qed.

Lemma add_word_new (s : list jsstring) (n : Z) (w : jsstring) :
  w ∉ s → add_word (s, n) w = (s ++ [w], (n + 1)%Z).
Proof.
  intros Hnin. unfold add_word.
  destruct (Set_has s w) eqn:Hhas; cbn [negb].
  - by apply Set_has_spec in Hhas.
  - by rewrite Set_add_new.
Qed.

Lemma foldl_add_word (l s : list jsstring) (n : Z) :
  foldl add_word (s, n) l =
    (foldl Set_add s l, (n + (len (foldl Set_add s l) - len s))%Z).
Proof.
  revert s n. induction l as [| w l IH]; intros s n; cbn [foldl].
  - f_equal. lia.
  - destruct (decide (w ∈ s)) as [Hin | Hnin].
    + rewrite add_word_old, Set_add_old by done. apply IH.
    + rewrite add_word_new, Set_add_new by done. rewrite IH. f_equal.
      unfold len. rewrite (length_app s [w]). cbn [length]. lia.
Qed.

(** ** [Array.prototype.sort] *)

Section Sorting.
Variable cmp : jsstring → jsstring → Z.

Lemma sort_insert_Permutation (x : jsstring) (l : list jsstring) :
  sort_insert cmp x l ≡ₚ x :: l.
Proof.
  induction l as [| y l IH]; cbn [sort_insert]; [done |].
  destruct (cmp x y <=? 0)%Z; [done |].
  rewrite IH. apply Permutation_swap.
Qed.

Lemma Array_sort_Permutation (l : list jsstring) : Array_sort cmp l ≡ₚ l.
Proof.
  induction l as [| x l IH]; [done |].
  unfold Array_sort in *. cbn [foldr].
  by rewrite sort_insert_Permutation, IH.
Qed.

Lemma Array_sort_elem (l : list jsstring) (x : jsstring) :
  x ∈ Array_sort cmp l ↔ x ∈ l.
Proof. by rewrite Array_sort_Permutation. Qed.

Lemma Array_sort_NoDup (l : list jsstring) :
  NoDup l → NoDup (Array_sort cmp l).
Proof. by rewrite Array_sort_Permutation. Qed.

Lemma Array_sort_len (l : list jsstring) : len (Array_sort cmp l) = len l.
Proof. unfold len. by rewrite Array_sort_Permutation. Qed.

(** A sorted array is left as it is: the sort is stable. *)
Lemma Array_sort_sorted (l : list jsstring) :
  Sorted (precedes cmp) l → Array_sort cmp l = l.
Proof.
  induction 1 as [| x l Hl IH Hhd]; [done |].
  unfold Array_sort in *. cbn [foldr]. rewrite IH.
  destruct Hhd as [| y l Hxy]; [done |].
  cbn [sort_insert]. unfold precedes in Hxy.
  by destruct (Z.leb_spec (cmp x y) 0); [| lia].
Qed.

(** The comparator is consistent: any two strings are comparable, and
    the order it induces is transitive. *)
Hypothesis cmp_total : ∀ a b, precedes cmp a b ∨ precedes cmp b a.
Hypothesis cmp_trans : ∀ a b c,
  precedes cmp a b → precedes cmp b c → precedes cmp a c.

Lemma sort_insert_Sorted (x : jsstring) (l : list jsstring) :
  Sorted (precedes cmp) l → Sorted (precedes cmp) (sort_insert cmp x l).
Proof using cmp_total.
  induction 1 as [| y l Hl IH Hhd]; cbn [sort_insert].
  - by repeat constructor.
  - destruct (Z.leb_spec (cmp x y) 0) as [Hle | Hgt].
    + constructor; [by constructor |]. by constructor.
    + assert (precedes cmp y x) as Hyx.
      { destruct (cmp_total x y) as [Hxy | Hyx]; [| done].
        unfold precedes in Hxy. lia. }
      constructor; [done |].
      destruct Hhd as [| z l Hyz]; cbn [sort_insert].
      * by constructor.
      * destruct (cmp x z <=? 0)%Z; by constructor.
Qed.

Lemma Array_sort_Sorted (l : list jsstring) :
  Sorted (precedes cmp) (Array_sort cmp l).
Proof using cmp_total.
  induction l as [| x l IH]; [constructor |].
  unfold Array_sort in *. cbn [foldr]. by apply sort_insert_Sorted.
Qed.

Lemma Array_sort_StronglySorted (l : list jsstring) :
  StronglySorted (precedes cmp) (Array_sort cmp l).
Proof using cmp_total cmp_trans.
  apply Sorted.Sorted_StronglySorted; [| apply Array_sort_Sorted].
  intros a b c. apply cmp_trans.
Qed.

(** When no two different strings collate as equal, the sorted array is
    the only sorted arrangement of the elements: the result does not
    depend on the sorting algorithm. *)
Lemma Array_sort_unique (l out : list jsstring) :
  (∀ a b, precedes cmp a b → precedes cmp b a → a = b) →
  out ≡ₚ l → Sorted (precedes cmp) out → out = Array_sort cmp l.
Proof using cmp_total cmp_trans.
  intros Hanti Hperm Hsorted.
  assert (Transitive (precedes cmp)) as Htrans
    by (intros a b c; apply cmp_trans).
  assert (AntiSymm (=) (precedes cmp)) as Hantisym
    by (intros a b; apply Hanti).
  apply (Sorted_unique (precedes cmp)); [done | apply Array_sort_Sorted |].
  by rewrite Array_sort_Permutation.
Qed.
End Sorting.

(** ** Merge *)

Lemma merge_unfold (cmp : jsstring → jsstring → Z) (A B : list jsstring) :
  merge cmp A B =
    mkAddResult (Array_sort cmp (foldl Set_add (new_Set A) B))
                (len (new_Set A))
                (len (foldl Set_add (new_Set A) B) - len (new_Set A)).
Proof. unfold merge. rewrite foldl_add_word. f_equal. Qed.

Lemma merge_elem (cmp : jsstring → jsstring → Z) (A B : list jsstring)
    (x : jsstring) :
  x ∈ add_sortedWords (merge cmp A B) ↔ x ∈ A ∨ x ∈ B.
Proof.
  rewrite merge_unfold. cbn [add_sortedWords].
  by rewrite Array_sort_elem, foldl_Set_add_elem, new_Set_elem.
Qed.

Lemma merge_added (cmp : jsstring → jsstring → Z) (A B : list jsstring) :
  add_addedCount (merge cmp A B) = Z.of_nat (size (new_set A B)).
Proof.
  rewrite merge_unfold. cbn [add_addedCount].
  rewrite new_Set_len.
  rewrite NoDup_len_size by apply foldl_Set_add_NoDup, new_Set_NoDup.
  replace (list_to_set (foldl Set_add (new_Set A) B) : gset jsstring)
    with (list_to_set A ∪ list_to_set B : gset jsstring).
  - rewrite size_union_alt. unfold new_set. lia.
  - apply set_eq. intros x.
    rewrite elem_of_union, !elem_of_list_to_set.
    by rewrite foldl_Set_add_elem, new_Set_elem.
Qed.

Lemma new_set_snoc (A B : list jsstring) (w : jsstring) :
  size (new_set A (B ++ [w])) =
    if bool_decide (w ∈ A ∨ w ∈ B) then size (new_set A B)
    else S (size (new_set A B)).
Proof.
  unfold new_set. rewrite list_to_set_app_L. cbn [list_to_set foldr].
  case_bool_decide as Hw.
  - f_equal. apply set_eq. intros x.
    rewrite !elem_of_difference, !elem_of_union, !elem_of_list_to_set.
    rewrite elem_of_singleton, elem_of_empty.
    split; [| tauto]. intros [[Hx | [-> | []]] Hn]; tauto.
  - replace ((list_to_set B ∪ ({[w]} ∪ ∅)) ∖ list_to_set A : gset jsstring)
      with ({[w]} ∪ (list_to_set B ∖ list_to_set A) : gset jsstring).
    + rewrite size_union, size_singleton; [done |].
      intros x. rewrite elem_of_singleton, elem_of_difference.
      rewrite elem_of_list_to_set. intros -> [HB _]. tauto.
    + apply set_eq. intros x.
      rewrite !elem_of_difference, !elem_of_union, !elem_of_difference.
      rewrite !elem_of_list_to_set, elem_of_singleton, elem_of_empty.
      split.
      * intros [-> | [Hx Hn]]; [| tauto]. split; tauto.
      * tauto.
Qed.

(** C2: the words [add] writes are the members of the dictionary and of
    the new words together, each once; the added count is the number of
    distinct new words that the dictionary did not hold; neither depends on
    the order of the new words; a further word raises the count by one
    when it is in neither list so far, and not at all otherwise. *)
Theorem merge_union_added (cmp : jsstring → jsstring → Z)
    (A B : list jsstring) :
  NoDup (add_sortedWords (merge cmp A B)) ∧
  (∀ x, x ∈ add_sortedWords (merge cmp A B) ↔ x ∈ A ∨ x ∈ B) ∧
  add_addedCount (merge cmp A B) = Z.of_nat (size (new_set A B)) ∧
  (∀ B', B' ≡ₚ B →
     add_sortedWords (merge cmp A B') ≡ₚ add_sortedWords (merge cmp A B) ∧
     add_addedCount (merge cmp A B') = add_addedCount (merge cmp A B)) ∧
  (∀ w, add_addedCount (merge cmp A (B ++ [w])) =
          if bool_decide (w ∈ A ∨ w ∈ B)
          then add_addedCount (merge cmp A B)
          else (add_addedCount (merge cmp A B) + 1)%Z).
Proof.
  assert (∀ B0, NoDup (add_sortedWords (merge cmp A B0))) as Hnd.
  { intros B0. rewrite merge_unfold. cbn [add_sortedWords].
    apply Array_sort_NoDup, foldl_Set_add_NoDup, new_Set_NoDup. }
  split; [apply Hnd |].
  split; [apply merge_elem |].
  split; [apply merge_added |].
  split.
  - intros B' Hperm. split.
    + apply NoDup_Permutation; [apply Hnd | apply Hnd |].
      intros x. rewrite !merge_elem. by rewrite Hperm.
    + rewrite !merge_added. unfold new_set. by rewrite Hperm.
  - intros w. rewrite !merge_added, new_set_snoc.
    case_bool_decide; lia.
Qed.

Lemma merge_union_added_witness :
  [Sample.lisa; Sample.kot] ≡ₚ [Sample.kot; Sample.lisa] ∧
  add_sortedWords
    (merge Sample.compare [Sample.kot; Sample.pyos] [Sample.lisa; Sample.kot])
  ≡ₚ add_sortedWords
    (merge Sample.compare [Sample.kot; Sample.pyos]
       [Sample.kot; Sample.lisa]) ∧
  add_addedCount
    (merge Sample.compare [Sample.kot; Sample.pyos] [Sample.lisa; Sample.kot])
  = add_addedCount
    (merge Sample.compare [Sample.kot; Sample.pyos] [Sample.kot; Sample.lisa]).
Proof.
  assert ([Sample.lisa; Sample.kot] ≡ₚ [Sample.kot; Sample.lisa]) as Hp
    by apply Permutation_swap.
  split; [exact Hp |].
  exact (proj1 (proj2 (proj2 (proj2
           (merge_union_added Sample.compare
              [Sample.kot; Sample.pyos] [Sample.kot; Sample.lisa]))))
           _ Hp).
Defined.

Example merge_sample :
  merge Sample.compare [Sample.kot; Sample.pyos] [Sample.kot; Sample.lisa] =
    mkAddResult [Sample.kot; Sample.lisa; Sample.pyos] 2 1.
Proof. reflexivity. Qed.

Example merge_repeated_new_word :
  add_addedCount
    (merge Sample.compare [Sample.kot]
       [Sample.lisa; Sample.kot; Sample.lisa; Sample.lisa]) = 1%Z.
Proof. reflexivity. Qed.

(** ** Subtract *)

Lemma subtract_result (P R : list jsstring) :
  del_result (subtract P R) = filter (λ x, x ∉ R) P.
Proof.
  unfold subtract. cbn [del_result].
  induction P as [| x P IH]; [done |].
  cbn [List.filter]. rewrite filter_cons, IH.
  destruct (Set_has (new_Set R) x) eqn:Hhas; cbn [negb].
  - apply Set_has_spec in Hhas. rewrite new_Set_elem in Hhas.
    rewrite decide_False; [done |]. intros Hn. exact (Hn Hhas).
  - rewrite decide_True; [done |].
    intros Hin. rewrite <- new_Set_elem, <- Set_has_spec in Hin. congruence.
Qed.

Lemma filter_split_length (P R : list jsstring) :
  length (filter (λ x, x ∉ R) P) + length (common_lines P R) = length P.
Proof.
  unfold common_lines. induction P as [| x P IH]; [done |].
  rewrite !filter_cons.
  destruct (decide (x ∈ R)) as [Hin | Hnin].
  - rewrite decide_False by (intros Hn; exact (Hn Hin)). cbn [length]. lia.
  - rewrite decide_True by done. cbn [length]. lia.
Qed.

Lemma len_size_NoDup (l : list jsstring) :
  len l = Z.of_nat (size (list_to_set l : gset jsstring)) ↔ NoDup l.
Proof.
  split; [| apply NoDup_len_size].
  intros Hlen. rewrite <- new_Set_len in Hlen.
  assert (new_Set l ≡ₚ l) as Hperm.
  { apply submseteq_length_Permutation.
    - apply NoDup_submseteq; [apply new_Set_NoDup |].
      intros x. by rewrite new_Set_elem.
    - unfold len in Hlen. lia. }
  rewrite <- Hperm. apply new_Set_NoDup.
Qed.

Lemma size_le_len (l : list jsstring) :
  (Z.of_nat (size (list_to_set l : gset jsstring)) ≤ len l)%Z.
Proof. rewrite <- new_Set_len. apply new_Set_len_le. Qed.

(** C3 (as amended): the output of [delete] is shorter than the
    dictionary by the number of dictionary lines that are in the rejection
    list, every occurrence counted; the removed count is the original
    length minus the length of the result.  The number of occurrences is
    never below the cardinality of the set of those lines and equals it,
    so that the equation with the cardinality holds, exactly when no
    rejected line occurs twice in the dictionary. *)
Theorem subtract_length (P R : list jsstring) :
  len (del_result (subtract P R)) = (len P - len (common_lines P R))%Z ∧
  del_deletedCount (subtract P R) =
    (len P - len (del_result (subtract P R)))%Z ∧
  del_deletedCount (subtract P R) = len (common_lines P R) ∧
  (Z.of_nat (size (common_set P R)) ≤ len (common_lines P R))%Z ∧
  (len (common_lines P R) = Z.of_nat (size (common_set P R)) ↔
   NoDup (common_lines P R)) ∧
  (len (del_result (subtract P R))
   = (len P - Z.of_nat (size (common_set P R)))%Z ↔
   NoDup (common_lines P R)).
Proof.
  pose proof (filter_split_length P R) as Hlen.
  pose proof (subtract_result P R) as Hres.
  pose proof (len_size_NoDup (common_lines P R)) as Hiff.
  pose proof (size_le_len (common_lines P R)) as Hle.
  fold (common_set P R) in Hiff, Hle.
  assert (len (del_result (subtract P R))
          = (len P - len (common_lines P R))%Z) as Hout.
  { rewrite Hres. unfold len. lia. }
  split; [exact Hout |].
  split; [unfold subtract; cbn [del_result del_deletedCount]; lia |].
  split.
  { unfold subtract in *. cbn [del_result del_deletedCount] in *. lia. }
  split; [exact Hle |]. split; [exact Hiff |].
  rewrite <- Hiff, Hout. lia.
Qed.

Lemma subtract_length_witness :
  NoDup (common_lines [Sample.word_b; Sample.word_b; Sample.word_a]
           [Sample.word_a]) ∧
  len (del_result
         (subtract [Sample.word_b; Sample.word_b; Sample.word_a]
            [Sample.word_a]))
  = (len [Sample.word_b; Sample.word_b; Sample.word_a]
     - Z.of_nat
         (size (common_set [Sample.word_b; Sample.word_b; Sample.word_a]
                  [Sample.word_a])))%Z.
Proof.
  assert (NoDup (common_lines [Sample.word_b; Sample.word_b; Sample.word_a]
                   [Sample.word_a])) as Hnd.
  { apply (bool_decide_unpack
             (NoDup (common_lines
                       [Sample.word_b; Sample.word_b; Sample.word_a]
                       [Sample.word_a]))).
    by vm_compute. }
  split; [exact Hnd |].
  exact (proj2 (proj2 (proj2 (proj2 (proj2 (proj2
           (subtract_length [Sample.word_b; Sample.word_b; Sample.word_a]
              [Sample.word_a])))))) Hnd).
Defined.

(** When no line occurs twice in the dictionary, counting occurrences and
    counting distinct lines agree. *)
Lemma common_lines_NoDup (P R : list jsstring) :
  NoDup P → len (common_lines P R) = Z.of_nat (size (common_set P R)).
Proof.
  intros Hnd. unfold common_set.
  apply NoDup_len_size. by apply NoDup_filter.
Qed.

(** C3 (as stated) fails on a dictionary with a repeated line: of the two
    lines "а", "а" none is left when "а" is rejected, while the length
    less the cardinality of the set {"а"} is 1. *)
Lemma subtract_length_counterexample :
  del_result (subtract [Sample.word_a; Sample.word_a] [Sample.word_a]) = [] ∧
  size (common_set [Sample.word_a; Sample.word_a] [Sample.word_a]) = 1 ∧
  len (del_result (subtract [Sample.word_a; Sample.word_a] [Sample.word_a])) ≠
    (len [Sample.word_a; Sample.word_a]
     - Z.of_nat
         (size (common_set [Sample.word_a; Sample.word_a]
                  [Sample.word_a])))%Z.
Proof.
  assert (size (common_set [Sample.word_a; Sample.word_a] [Sample.word_a]) = 1)
    as Hsize.
  { replace (common_set [Sample.word_a; Sample.word_a] [Sample.word_a])
      with ({[ Sample.word_a ]} : gset jsstring); [apply size_singleton |].
    apply set_eq. intros x. unfold common_set, common_lines.
    rewrite elem_of_list_to_set, list_elem_of_filter, elem_of_singleton.
    rewrite !elem_of_cons, elem_of_nil. tauto. }
  split; [reflexivity |]. split; [exact Hsize |].
  rewrite Hsize. by vm_compute.
Qed.

(** C5: the output of [delete] is a subsequence of the dictionary, free of
    rejected lines, and the longest such: every subsequence of the
    dictionary without rejected lines is a subsequence of the output, so
    order is kept and every occurrence of a line that is not rejected
    stays. *)
Theorem subtract_subsequence (P R : list jsstring) :
  del_result (subtract P R) `sublist_of` P ∧
  Forall (λ x, x ∈ P ∧ x ∉ R) (del_result (subtract P R)) ∧
  (∀ l, l `sublist_of` P → Forall (λ x, x ∉ R) l →
        l `sublist_of` del_result (subtract P R)) ∧
  (∀ x, x ∉ R →
        filter (x =.) (del_result (subtract P R)) = filter (x =.) P).
Proof.
  rewrite subtract_result.
  split; [apply sublist_filter |].
  split; [| split].
  - apply Forall_forall. intros x Hx.
    apply list_elem_of_filter in Hx. tauto.
  - intros l Hsub Hall.
    induction Hsub as [| x l1 l2 Hsub IH | x l1 l2 Hsub IH].
    + constructor.
    + apply Forall_cons in Hall as [Hx Hall].
      rewrite filter_cons, decide_True by done.
      constructor. by apply IH.
    + rewrite filter_cons. case_decide.
      * constructor. by apply IH.
      * by apply IH.
  - intros x Hx. induction P as [| y P IH]; [done |].
    rewrite !filter_cons. destruct (decide (y ∉ R)) as [Hy | Hy].
    + rewrite filter_cons. by rewrite IH.
    + rewrite IH. rewrite decide_False; [done |]. by intros ->.
Qed.

Lemma subtract_subsequence_witness :
  ([Sample.word_v] `sublist_of`
     [Sample.word_a; Sample.word_b; Sample.word_v]) ∧
  (Forall (λ x, x ∉ [Sample.word_b]) [Sample.word_v]) ∧
  (Sample.word_v ∉ [Sample.word_b]) ∧
  ([Sample.word_v] `sublist_of`
     del_result (subtract [Sample.word_a; Sample.word_b; Sample.word_v]
                          [Sample.word_b])) ∧
  (filter (Sample.word_v =.)
     (del_result (subtract [Sample.word_a; Sample.word_b; Sample.word_v]
                           [Sample.word_b]))
   = filter (Sample.word_v =.)
       [Sample.word_a; Sample.word_b; Sample.word_v]).
Proof.
  assert (Sample.word_v ∉ [Sample.word_b]) as Hnot.
  { intros Hin%list_elem_of_singleton. discriminate. }
  assert ([Sample.word_v] `sublist_of`
            [Sample.word_a; Sample.word_b; Sample.word_v])
    as Hsub by (do 2 apply sublist_cons; apply sublist_skip; constructor).
  assert (Forall (λ x : jsstring, x ∉ [Sample.word_b]) [Sample.word_v]) as Hall
    by (by constructor).
  split; [exact Hsub |]. split; [exact Hall |]. split; [exact Hnot |].
  split.
  - exact (proj1 (proj2 (proj2
      (subtract_subsequence [Sample.word_a; Sample.word_b; Sample.word_v]
         [Sample.word_b]))) _ Hsub Hall).
  - exact (proj2 (proj2 (proj2
      (subtract_subsequence [Sample.word_a; Sample.word_b; Sample.word_v]
         [Sample.word_b]))) _ Hnot).
Defined.

Example subtract_sample :
  subtract [Sample.word_a; Sample.word_b; Sample.word_v] [Sample.word_b] =
    mkDeleteResult [Sample.word_a; Sample.word_v] 1.
Proof. reflexivity. Qed.

Example subtract_keeps_duplicates :
  subtract [Sample.word_v; Sample.word_a; Sample.word_v; Sample.word_b]
    [Sample.word_b] =
    mkDeleteResult [Sample.word_v; Sample.word_a; Sample.word_v] 1.
Proof. reflexivity. Qed.

(** ** The sample comparator is consistent *)

Lemma lex_compare_flip (a b : list Z) :
  Sample.lex_compare b a = (- Sample.lex_compare a b)%Z.
Proof.
  revert b. induction a as [| x a IH]; intros [| y b]; cbn; try done.
  destruct (Z.ltb_spec x y), (Z.ltb_spec y x); try lia. apply IH.
Qed.

Lemma lex_compare_trans (a b c : list Z) :
  (Sample.lex_compare a b ≤ 0)%Z → (Sample.lex_compare b c ≤ 0)%Z →
  (Sample.lex_compare a c ≤ 0)%Z.
Proof.
  revert b c.
  induction a as [| x a IH]; intros [| y b] [| z c]; cbn; try lia.
  destruct (Z.ltb_spec x y), (Z.ltb_spec y x), (Z.ltb_spec y z),
    (Z.ltb_spec z y), (Z.ltb_spec x z), (Z.ltb_spec z x); try lia.
  apply IH.
Qed.

Lemma Sample_compare_total (a b : jsstring) :
  precedes Sample.compare a b ∨ precedes Sample.compare b a.
Proof.
  unfold precedes, Sample.compare.
  rewrite (lex_compare_flip (map Sample.weight a)). lia.
Qed.

Lemma Sample_compare_trans (a b c : jsstring) :
  precedes Sample.compare a b → precedes Sample.compare b c →
  precedes Sample.compare a c.
Proof. unfold precedes, Sample.compare. apply lex_compare_trans. Qed.

(** ** Normalize *)

Section Normalize.
Variable cmp : jsstring → jsstring → Z.
Hypothesis cmp_total : ∀ a b, precedes cmp a b ∨ precedes cmp b a.
Hypothesis cmp_trans : ∀ a b c,
  precedes cmp a b → precedes cmp b c → precedes cmp a c.

(** C4: the words [sort] writes are the lines read, each once and none
    changed, in the order of the comparator; the count of duplicates
    removed is the number of lines read less the number written. *)
Theorem normalize_distinct_sorted (lines : list jsstring) :
  NoDup (sort_sortedWords (normalize cmp lines)) ∧
  (∀ x, x ∈ sort_sortedWords (normalize cmp lines) ↔ x ∈ lines) ∧
  sort_sortedWords (normalize cmp lines) ≡ₚ new_Set lines ∧
  StronglySorted (precedes cmp) (sort_sortedWords (normalize cmp lines)) ∧
  sort_duplicatesRemoved (normalize cmp lines) =
    (len lines - len (sort_sortedWords (normalize cmp lines)))%Z ∧
  (0 ≤ sort_duplicatesRemoved (normalize cmp lines))%Z.
Proof using cmp_total cmp_trans.
  unfold normalize. cbn [sort_sortedWords sort_duplicatesRemoved].
  split; [apply Array_sort_NoDup, new_Set_NoDup |].
  split; [intros x; by rewrite Array_sort_elem, new_Set_elem |].
  split; [apply Array_sort_Permutation |].
  split; [by apply Array_sort_StronglySorted |].
  split; [done |].
  rewrite Array_sort_len. pose proof (new_Set_len_le lines). lia.
Qed.

(** C6: [sort] applied to what [sort] wrote writes the same words again
    and removes no duplicate. *)
Theorem normalize_idempotent (lines : list jsstring) :
  normalize cmp (sort_sortedWords (normalize cmp lines)) =
    mkSortResult (sort_sortedWords (normalize cmp lines)) 0.
Proof using cmp_total.
  unfold normalize at 1.
  set (out := sort_sortedWords (normalize cmp lines)).
  assert (NoDup out) as Hnd
    by apply Array_sort_NoDup, new_Set_NoDup.
  assert (Sorted (precedes cmp) out) as Hsorted
    by by apply Array_sort_Sorted.
  rewrite (new_Set_fresh out Hnd), (Array_sort_sorted cmp out Hsorted).
  f_equal. lia.
Qed.
End Normalize.

Lemma normalize_distinct_sorted_witness :
  sort_sortedWords
    (normalize Sample.compare
       [Sample.banan; Sample.yabloko; Sample.grusha; Sample.banan])
  ≡ₚ new_Set [Sample.banan; Sample.yabloko; Sample.grusha; Sample.banan] ∧
  sort_duplicatesRemoved
    (normalize Sample.compare
       [Sample.banan; Sample.yabloko; Sample.grusha; Sample.banan]) =
  (len [Sample.banan; Sample.yabloko; Sample.grusha; Sample.banan]
   - len (sort_sortedWords
            (normalize Sample.compare
               [Sample.banan; Sample.yabloko; Sample.grusha; Sample.banan])))%Z.
Proof.
  pose proof (normalize_distinct_sorted Sample.compare
                Sample_compare_total Sample_compare_trans
                [Sample.banan; Sample.yabloko; Sample.grusha; Sample.banan])
    as (_ & _ & Hperm & _ & Hdup & _).
  split; [exact Hperm | exact Hdup].
Defined.

Lemma normalize_idempotent_witness :
  normalize Sample.compare
    (sort_sortedWords
       (normalize Sample.compare
          [Sample.banan; Sample.yabloko; Sample.grusha; Sample.banan])) =
  mkSortResult [Sample.banan; Sample.grusha; Sample.yabloko] 0.
Proof.
  exact (normalize_idempotent Sample.compare Sample_compare_total
           [Sample.banan; Sample.yabloko; Sample.grusha; Sample.banan]).
Defined.

Example normalize_removes_duplicates :
  normalize Sample.compare
    [Sample.banan; Sample.yabloko; Sample.grusha; Sample.banan] =
    mkSortResult [Sample.banan; Sample.grusha; Sample.yabloko] 1.
Proof. reflexivity. Qed.

(** ** The commands *)

Lemma detectEncoding_run (filePath : string) (d : Disk) :
  detectEncoding filePath d = (Ok (detected d filePath), d, [EvReadFile filePath]).
Proof.
  unfold detected, outcome, detectEncoding, try_catch, readFile.
  unfold mbind, IO_bind, io_bind, mret, IO_ret, io_ret.
  destruct (d !! filePath) as [f |]; [destruct (readable f) |]; done.
Qed.

Lemma detected_known (filePath : string) (d : Disk) :
  detected d filePath ≠ unknown →
  ∃ f, d !! filePath = Some f ∧ readable f = true ∧
       classify (content f) = detected d filePath.
Proof.
  unfold detected, outcome, detectEncoding, try_catch, readFile.
  unfold mbind, IO_bind, io_bind, mret, IO_ret, io_ret.
  destruct (d !! filePath) as [f |]; [destruct (readable f) eqn:Hr |];
    cbn; try done.
  intros _. by exists f.
Qed.

Local Arguments decoded_lines : simpl never.
Local Arguments joined : simpl never.
Local Arguments merge : simpl never.
Local Arguments normalize : simpl never.
Local Arguments subtract : simpl never.
Local Arguments classify : simpl never.

Ltac io_unfold :=
  unfold try_catch, mbind, IO_bind, io_bind, mret, IO_ret, io_ret,
    emit, throw, process_exit, iconv_getCodec.

Lemma readFileLines_unknown (host : Host) (filePath : string) (d : Disk) :
  readFileLines host filePath unknown d =
    (Throw (EncodingNotRecognized "unknown"), d, [EvCreateReadStream filePath]).
Proof. reflexivity. Qed.

Lemma readFileLines_known (host : Host) (filePath : string) (d : Disk)
    (enc : EncodingLabel) (f : File) :
  enc ≠ unknown → d !! filePath = Some f → readable f = true →
  readFileLines host filePath enc d =
    (Ok (decoded_lines host enc (content f)), d, [EvCreateReadStream filePath]).
Proof.
  intros Henc Hf Hr. unfold readFileLines, stream_bytes. io_unfold.
  destruct enc; [| | done]; cbn; by rewrite Hf, Hr.
Qed.

Lemma readFileLines_detected (host : Host) (filePath : string) (d : Disk) :
  detected d filePath ≠ unknown →
  readFileLines host filePath (detected d filePath) d =
    (Ok (decoded_lines host (detected d filePath) (file_bytes d filePath)),
     d, [EvCreateReadStream filePath]).
Proof.
  intros Henc. destruct (detected_known _ _ Henc) as (f & Hf & Hr & _).
  unfold file_bytes. rewrite Hf. by apply readFileLines_known.
Qed.

Lemma writeFileLines_run (host : Host) (filePath : string) (d : Disk)
    (enc : EncodingLabel) (ls : list jsstring) (f : File) :
  enc ≠ unknown → d !! filePath = Some f →
  writeFileLines host filePath ls enc d =
    if writable f
    then (Ok (),
          <[filePath := mkFile (readable f) true
                          (encodeStream host enc (joined ls))]> d,
          [EvCreateWriteStream filePath; EvWrite filePath enc ls])
    else (Throw (EACCES filePath), d, [EvCreateWriteStream filePath]).
Proof.
  intros Henc Hf. unfold writeFileLines, stream_write. io_unfold.
  destruct enc; [| | done]; cbn; rewrite Hf; by destruct (writable f).
Qed.

(** The last step of a command whose dictionary has a known encoding. *)
Ltac write_phase host d dictPath Henc reads :=
  let f := fresh "f" in
  let Hf := fresh "Hf" in
  destruct (detected_known _ _ Henc) as (f & Hf & _ & _);
  rewrite (writeFileLines_run host dictPath d _ _ f Henc Hf);
  destruct (writable f); cbn;
  [ apply (shape_written _ _ _ _ _ reads f);
    [by repeat constructor | done | done]
  | apply (shape_refused _ _ _ _ _ reads);
    [by repeat constructor | done] ].

Lemma addWords_shape (host : Host) (dictPath newWordsPath : string)
    (d : Disk) :
  run_shape host d dictPath (detected d dictPath)
    (add_sortedWords
       (merge (localeCompare host)
          (decoded_lines host (detected d dictPath) (file_bytes d dictPath))
          (decoded_lines host (detected d newWordsPath)
             (file_bytes d newWordsPath))))
    (addWords host dictPath newWordsPath d).
Proof.
  unfold addWords. unfold try_catch, mbind, IO_bind, io_bind.
  rewrite !detectEncoding_run.
  destruct (decide (detected d dictPath = unknown)) as [He1 | He1].
  { rewrite He1, readFileLines_unknown. cbn. apply shape_stopped.
    by repeat constructor. }
  rewrite (readFileLines_detected host dictPath d He1).
  destruct (decide (detected d newWordsPath = unknown)) as [He2 | He2].
  { rewrite He2, readFileLines_unknown. cbn. apply shape_stopped.
    by repeat constructor. }
  rewrite (readFileLines_detected host newWordsPath d He2).
  write_phase host d dictPath He1
    [EvReadFile dictPath; EvReadFile newWordsPath;
     EvCreateReadStream dictPath; EvCreateReadStream newWordsPath].
Qed.

Lemma deleteWords_shape (host : Host) (dictPath wordsToDeletePath : string)
    (d : Disk) :
  run_shape host d dictPath (detected d dictPath)
    (del_result
       (subtract
          (decoded_lines host (detected d dictPath) (file_bytes d dictPath))
          (decoded_lines host (detected d wordsToDeletePath)
             (file_bytes d wordsToDeletePath))))
    (deleteWords host dictPath wordsToDeletePath d).
Proof.
  unfold deleteWords. unfold try_catch, mbind, IO_bind, io_bind.
  rewrite !detectEncoding_run.
  destruct (decide (detected d dictPath = unknown)) as [He1 | He1].
  { rewrite He1, readFileLines_unknown. cbn. apply shape_stopped.
    by repeat constructor. }
  rewrite (readFileLines_detected host dictPath d He1).
  destruct (decide (detected d wordsToDeletePath = unknown)) as [He2 | He2].
  { rewrite He2, readFileLines_unknown. cbn. apply shape_stopped.
    by repeat constructor. }
  rewrite (readFileLines_detected host wordsToDeletePath d He2).
  write_phase host d dictPath He1
    [EvReadFile dictPath; EvReadFile wordsToDeletePath;
     EvCreateReadStream dictPath; EvCreateReadStream wordsToDeletePath].
Qed.

Lemma sortDictionary_shape (host : Host) (dictPath : string) (d : Disk) :
  run_shape host d dictPath (detected d dictPath)
    (sort_sortedWords
       (normalize (localeCompare host)
          (decoded_lines host (detected d dictPath) (file_bytes d dictPath))))
    (sortDictionary host dictPath d).
Proof.
  unfold sortDictionary. unfold try_catch, mbind, IO_bind, io_bind.
  rewrite !detectEncoding_run.
  destruct (decide (detected d dictPath = unknown)) as [He1 | He1].
  { rewrite He1, readFileLines_unknown. cbn. apply shape_stopped.
    by repeat constructor. }
  rewrite (readFileLines_detected host dictPath d He1).
  write_phase host d dictPath He1
    [EvReadFile dictPath; EvCreateReadStream dictPath].
Qed.

(** *** What the shape of a run implies *)

Lemma reads_no_write (reads : list Event) (ev : Event) :
  Forall is_read_event reads → ev ∈ reads → ¬ is_write_event ev.
Proof.
  rewrite Forall_forall. intros Hreads Hin. specialize (Hreads _ Hin).
  destruct ev; cbn in *; tauto.
Qed.

Lemma shape_write_event (host : Host) (d : Disk) (dictPath : string)
    (enc : EncodingLabel) (ls : list jsstring)
    (run : Outcome unit * Disk * list Event)
    (p : string) (enc' : EncodingLabel) (ls' : list jsstring) :
  run_shape host d dictPath enc ls run →
  EvWrite p enc' ls' ∈ run.2 →
  p = dictPath ∧ enc' = enc ∧ ls' = ls ∧ enc ≠ unknown ∧
  run.1.1 = Ok () ∧
  file_bytes run.1.2 dictPath = encodeStream host enc (joined ls).
Proof.
  destruct 1 as [reads Hreads | reads Hreads Henc
                 | reads f changed total Hreads Henc Hf]; cbn [fst snd].
  - intros Hin. by destruct (reads_no_write _ _ Hreads Hin).
  - rewrite elem_of_app, list_elem_of_singleton.
    intros [Hin | Heq]; [| done].
    by destruct (reads_no_write _ _ Hreads Hin).
  - rewrite elem_of_app, !elem_of_cons, elem_of_nil.
    intros [Hin | [Heq | [Heq | [Heq | []]]]]; try done.
    + by destruct (reads_no_write _ _ Hreads Hin).
    + injection Heq as -> -> ->.
      unfold file_bytes. by rewrite lookup_insert_eq.
Qed.

Lemma shape_unknown (host : Host) (d : Disk) (dictPath : string)
    (ls : list jsstring) (run : Outcome unit * Disk * list Event) :
  run_shape host d dictPath unknown ls run →
  run.1.1 = Exit 1 ∧ run.1.2 = d ∧ Forall (λ ev, ¬ is_write_event ev) run.2.
Proof.
  destruct 1 as [reads Hreads | reads Hreads Henc
                 | reads f changed total Hreads Henc Hf]; try done.
  cbn [fst snd]. repeat split.
  apply Forall_forall. intros ev Hin. by apply (reads_no_write reads).
Qed.

Lemma shape_order (host : Host) (d : Disk) (dictPath : string)
    (enc : EncodingLabel) (ls : list jsstring)
    (run : Outcome unit * Disk * list Event)
    (pre post : list Event) (p : string) :
  run_shape host d dictPath enc ls run →
  run.2 = pre ++ EvCreateWriteStream p :: post →
  p = dictPath ∧ Forall is_read_event pre ∧
  Forall (λ ev, ¬ is_read_event ev) post.
Proof.
  assert (∀ reads tail,
            Forall is_read_event reads →
            reads ++ tail = pre ++ EvCreateWriteStream p :: post →
            ∃ k, pre = reads ++ k ∧ tail = k ++ EvCreateWriteStream p :: post)
    as Hsplit.
  { intros reads tail Hreads Heq.
    apply app_eq_inv in Heq as [(k & -> & Hk) | (k & -> & Hk)].
    - destruct k as [| ev k].
      + exists []. rewrite !app_nil_r. by cbn in Hk.
      + injection Hk as <- _. apply Forall_app in Hreads as [_ Hreads].
        apply Forall_cons in Hreads as [[] _].
    - by exists k. }
  destruct 1 as [reads Hreads | reads Hreads Henc
                 | reads f changed total Hreads Henc Hf]; cbn [fst snd];
    intros Heq.
  - rewrite <- (app_nil_r reads) in Heq.
    destruct (Hsplit _ _ Hreads Heq) as (k & _ & Hk). by destruct k.
  - destruct (Hsplit _ _ Hreads Heq) as (k & -> & Hk).
    destruct k as [| ev [| ev' k]]; simplify_eq/=.
    rewrite app_nil_r. repeat split; [done | constructor].
  - destruct (Hsplit _ _ Hreads Heq) as (k & -> & Hk).
    destruct k as [| ev1 [| ev2 [| ev3 [| ev4 k]]]]; simplify_eq/=.
    rewrite app_nil_r. repeat split; [done |].
    repeat constructor; by intros [].
Qed.

Lemma detectEncoding_outcome (filePath : string) (d : Disk) :
  outcome (detectEncoding filePath) d = Ok (detected d filePath).
Proof. unfold outcome. by rewrite detectEncoding_run. Qed.

Lemma detected_outcome (filePath : string) (d : Disk) (enc : EncodingLabel) :
  outcome (detectEncoding filePath) d = Ok enc ↔ detected d filePath = enc.
Proof. rewrite detectEncoding_outcome. split; congruence. Qed.

Lemma shape_leaves_untouched (host : Host) (d : Disk) (dictPath : string)
    (ls : list jsstring) (m : IO unit) :
  run_shape host d dictPath unknown ls (m d) → leaves_untouched m d.
Proof. intros Hshape. by apply shape_unknown in Hshape. Qed.

(** C7: whenever [add], [delete] or [sort] writes, it writes the dictionary
    file, in the encoding [detectEncoding] gave for that file at the start
    of the command, whatever the encoding of the second file; the file
    then holds the written lines in that encoding. *)
Theorem write_encoding_is_detected (host : Host) (d : Disk)
    (dictPath otherPath p : string) (enc : EncodingLabel)
    (ls : list jsstring) :
  (EvWrite p enc ls ∈ events (addWords host dictPath otherPath) d →
   p = dictPath ∧ outcome (detectEncoding dictPath) d = Ok enc ∧
   enc ≠ unknown ∧
   file_bytes (disk_after (addWords host dictPath otherPath) d) dictPath =
     encodeStream host enc (joined ls)) ∧
  (EvWrite p enc ls ∈ events (deleteWords host dictPath otherPath) d →
   p = dictPath ∧ outcome (detectEncoding dictPath) d = Ok enc ∧
   enc ≠ unknown ∧
   file_bytes (disk_after (deleteWords host dictPath otherPath) d) dictPath =
     encodeStream host enc (joined ls)) ∧
  (EvWrite p enc ls ∈ events (sortDictionary host dictPath) d →
   p = dictPath ∧ outcome (detectEncoding dictPath) d = Ok enc ∧
   enc ≠ unknown ∧
   file_bytes (disk_after (sortDictionary host dictPath) d) dictPath =
     encodeStream host enc (joined ls)).
Proof.
  split; [| split]; intros Hin.
  - destruct (shape_write_event _ _ _ _ _ _ _ _ _
                (addWords_shape host dictPath otherPath d) Hin)
      as (-> & -> & -> & Henc & _ & Hbytes).
    by rewrite detectEncoding_outcome.
  - destruct (shape_write_event _ _ _ _ _ _ _ _ _
                (deleteWords_shape host dictPath otherPath d) Hin)
      as (-> & -> & -> & Henc & _ & Hbytes).
    by rewrite detectEncoding_outcome.
  - destruct (shape_write_event _ _ _ _ _ _ _ _ _
                (sortDictionary_shape host dictPath d) Hin)
      as (-> & -> & -> & Henc & _ & Hbytes).
    by rewrite detectEncoding_outcome.
Qed.

Lemma write_encoding_is_detected_witness :
  outcome (detectEncoding "new.txt") Sample.disk = Ok windows1251 ∧
  EvWrite "dict.txt" utf8 [Sample.kot; Sample.lisa; Sample.pyos]
    ∈ events (addWords Sample.host "dict.txt" "new.txt") Sample.disk ∧
  outcome (detectEncoding "dict.txt") Sample.disk = Ok utf8.
Proof.
  assert (EvWrite "dict.txt" utf8 [Sample.kot; Sample.lisa; Sample.pyos]
            ∈ events (addWords Sample.host "dict.txt" "new.txt") Sample.disk)
    as Hin.
  { replace (events (addWords Sample.host "dict.txt" "new.txt") Sample.disk)
      with [EvReadFile "dict.txt"; EvReadFile "new.txt";
            EvCreateReadStream "dict.txt"; EvCreateReadStream "new.txt";
            EvCreateWriteStream "dict.txt";
            EvWrite "dict.txt" utf8 [Sample.kot; Sample.lisa; Sample.pyos];
            EvSummary 1 3]
      by (vm_compute; reflexivity).
    do 5 apply list_elem_of_further. apply list_elem_of_here. }
  split; [vm_compute; reflexivity |]. split; [exact Hin |].
  exact (proj1 (proj2 (proj1
           (write_encoding_is_detected Sample.host Sample.disk
              "dict.txt" "new.txt" "dict.txt" utf8
              [Sample.kot; Sample.lisa; Sample.pyos]) Hin))).
Defined.

(** C8: when the encoding detected for the dictionary is [unknown], the
    command ends with exit status 1, no file is changed, and no write
    stream is created; and in every run of a command the write stream is
    created for the dictionary only, after the last read. *)
Theorem unknown_dictionary_not_written (host : Host) (d : Disk)
    (dictPath otherPath : string) :
  (outcome (detectEncoding dictPath) d = Ok unknown →
   leaves_untouched (addWords host dictPath otherPath) d ∧
   leaves_untouched (deleteWords host dictPath otherPath) d ∧
   leaves_untouched (sortDictionary host dictPath) d) ∧
  writes_after_reads (addWords host dictPath otherPath) d dictPath ∧
  writes_after_reads (deleteWords host dictPath otherPath) d dictPath ∧
  writes_after_reads (sortDictionary host dictPath) d dictPath.
Proof.
  split.
  - intros Hunknown%detected_outcome.
    pose proof (addWords_shape host dictPath otherPath d) as Hadd.
    pose proof (deleteWords_shape host dictPath otherPath d) as Hdel.
    pose proof (sortDictionary_shape host dictPath d) as Hsort.
    rewrite Hunknown in Hadd, Hdel, Hsort.
    split; [| split]; eapply shape_leaves_untouched; eassumption.
  - split; [| split]; intros pre p post Heq.
    + exact (shape_order _ _ _ _ _ _ _ _ _
               (addWords_shape host dictPath otherPath d) Heq).
    + exact (shape_order _ _ _ _ _ _ _ _ _
               (deleteWords_shape host dictPath otherPath d) Heq).
    + exact (shape_order _ _ _ _ _ _ _ _ _
               (sortDictionary_shape host dictPath d) Heq).
Qed.

Lemma unknown_dictionary_not_written_witness :
  outcome (detectEncoding "numbers.txt") Sample.disk = Ok unknown ∧
  leaves_untouched (addWords Sample.host "numbers.txt" "new.txt") Sample.disk ∧
  leaves_untouched (deleteWords Sample.host "numbers.txt" "new.txt")
    Sample.disk ∧
  leaves_untouched (sortDictionary Sample.host "numbers.txt") Sample.disk.
Proof.
  assert (outcome (detectEncoding "numbers.txt") Sample.disk = Ok unknown)
    as Hunknown by (vm_compute; reflexivity).
  split; [exact Hunknown |].
  exact (proj1 (unknown_dictionary_not_written Sample.host Sample.disk
                  "numbers.txt" "new.txt") Hunknown).
Defined.

(** *** Files that cannot be read *)

Lemma readFile_failure_detected (filePath : string) (d : Disk) (e : Error) :
  outcome (readFile filePath) d = Throw e → detected d filePath = unknown.
Proof.
  unfold detected, outcome, detectEncoding, try_catch, readFile.
  unfold mbind, IO_bind, io_bind, mret, IO_ret, io_ret.
  destruct (d !! filePath) as [f |]; [destruct (readable f) |]; done.
Qed.

Lemma addWords_unknown (host : Host) (dictPath newWordsPath : string)
    (d : Disk) :
  detected d dictPath = unknown →
  addWords host dictPath newWordsPath d =
    (Exit 1, d,
     [EvReadFile dictPath; EvReadFile newWordsPath;
      EvCreateReadStream dictPath]).
Proof.
  intros He1. unfold addWords. unfold try_catch, mbind, IO_bind, io_bind.
  rewrite !detectEncoding_run. by rewrite He1, readFileLines_unknown.
Qed.

Lemma deleteWords_unknown (host : Host) (dictPath wordsToDeletePath : string)
    (d : Disk) :
  detected d dictPath = unknown →
  deleteWords host dictPath wordsToDeletePath d =
    (Exit 1, d,
     [EvReadFile dictPath; EvReadFile wordsToDeletePath;
      EvCreateReadStream dictPath]).
Proof.
  intros He1. unfold deleteWords. unfold try_catch, mbind, IO_bind, io_bind.
  rewrite !detectEncoding_run. by rewrite He1, readFileLines_unknown.
Qed.

Lemma sortDictionary_unknown (host : Host) (dictPath : string) (d : Disk) :
  detected d dictPath = unknown →
  sortDictionary host dictPath d =
    (Exit 1, d, [EvReadFile dictPath; EvCreateReadStream dictPath]).
Proof.
  intros He1. unfold sortDictionary.
  unfold try_catch, mbind, IO_bind, io_bind.
  rewrite !detectEncoding_run. by rewrite He1, readFileLines_unknown.
Qed.

Lemma stopped_leaves_untouched (m : IO unit) (d : Disk)
    (reads : list Event) :
  Forall is_read_event reads → m d = (Exit 1, d, reads) →
  leaves_untouched m d.
Proof.
  intros Hreads Hrun. unfold leaves_untouched, outcome, disk_after, events.
  rewrite Hrun. cbn [fst snd]. repeat split.
  apply Forall_forall. intros ev Hin. by apply (reads_no_write reads).
Qed.

Lemma addWords_second_unknown (host : Host) (dictPath newWordsPath : string)
    (d : Disk) :
  detected d newWordsPath = unknown →
  leaves_untouched (addWords host dictPath newWordsPath) d.
Proof.
  intros He2.
  destruct (decide (detected d dictPath = unknown)) as [He1 | He1].
  - eapply stopped_leaves_untouched; [| by apply addWords_unknown].
    by repeat constructor.
  - apply (stopped_leaves_untouched _ _
             [EvReadFile dictPath; EvReadFile newWordsPath;
              EvCreateReadStream dictPath; EvCreateReadStream newWordsPath]);
      [by repeat constructor |].
    unfold addWords. unfold try_catch, mbind, IO_bind, io_bind.
    rewrite !detectEncoding_run.
    rewrite (readFileLines_detected host dictPath d He1).
    by rewrite He2, readFileLines_unknown.
Qed.

Lemma deleteWords_second_unknown (host : Host)
    (dictPath wordsToDeletePath : string) (d : Disk) :
  detected d wordsToDeletePath = unknown →
  leaves_untouched (deleteWords host dictPath wordsToDeletePath) d.
Proof.
  intros He2.
  destruct (decide (detected d dictPath = unknown)) as [He1 | He1].
  - eapply stopped_leaves_untouched; [| by apply deleteWords_unknown].
    by repeat constructor.
  - apply (stopped_leaves_untouched _ _
             [EvReadFile dictPath; EvReadFile wordsToDeletePath;
              EvCreateReadStream dictPath;
              EvCreateReadStream wordsToDeletePath]);
      [by repeat constructor |].
    unfold deleteWords. unfold try_catch, mbind, IO_bind, io_bind.
    rewrite !detectEncoding_run.
    rewrite (readFileLines_detected host dictPath d He1).
    by rewrite He2, readFileLines_unknown.
Qed.

(** C9 (as amended): a file that cannot be read makes [detectEncoding]
    return the label [unknown] after its one attempt to read; the error is
    not passed on.  The command then finds no decoder for [unknown], ends
    with exit status 1 without a second [readFile], and writes nothing,
    whether the file is the dictionary or the second file. *)
Theorem read_failure_absorbed (host : Host) (d : Disk)
    (filePath otherPath : string) (e : Error) :
  outcome (readFile filePath) d = Throw e →
  detectEncoding filePath d = (Ok unknown, d, [EvReadFile filePath]) ∧
  readFileLines host filePath unknown d =
    (Throw (EncodingNotRecognized "unknown"), d,
     [EvCreateReadStream filePath]) ∧
  addWords host filePath otherPath d =
    (Exit 1, d,
     [EvReadFile filePath; EvReadFile otherPath;
      EvCreateReadStream filePath]) ∧
  deleteWords host filePath otherPath d =
    (Exit 1, d,
     [EvReadFile filePath; EvReadFile otherPath;
      EvCreateReadStream filePath]) ∧
  sortDictionary host filePath d =
    (Exit 1, d, [EvReadFile filePath; EvCreateReadStream filePath]) ∧
  leaves_untouched (addWords host otherPath filePath) d ∧
  leaves_untouched (deleteWords host otherPath filePath) d.
Proof.
  intros Hfail%readFile_failure_detected.
  split; [by rewrite detectEncoding_run, Hfail |].
  split; [apply readFileLines_unknown |].
  split; [by apply addWords_unknown |].
  split; [by apply deleteWords_unknown |].
  split; [by apply sortDictionary_unknown |].
  split; [by apply addWords_second_unknown |].
  by apply deleteWords_second_unknown.
Qed.

Lemma read_failure_absorbed_witness :
  outcome (readFile "missing.txt") Sample.disk = Throw (ENOENT "missing.txt") ∧
  detectEncoding "missing.txt" Sample.disk =
    (Ok unknown, Sample.disk, [EvReadFile "missing.txt"]) ∧
  sortDictionary Sample.host "missing.txt" Sample.disk =
    (Exit 1, Sample.disk,
     [EvReadFile "missing.txt"; EvCreateReadStream "missing.txt"]) ∧
  leaves_untouched (addWords Sample.host "dict.txt" "missing.txt")
    Sample.disk.
Proof.
  assert (outcome (readFile "missing.txt") Sample.disk
          = Throw (ENOENT "missing.txt")) as Hfail
    by (vm_compute; reflexivity).
  destruct (read_failure_absorbed Sample.host Sample.disk
              "missing.txt" "dict.txt" _ Hfail)
    as (Hdetect & _ & _ & _ & Hsort & Hadd & _).
  split; [exact Hfail |]. split; [exact Hdetect |].
  split; [exact Hsort | exact Hadd].
Defined.

(** C9 (as stated) fails: on a disk without the file, and on a disk where
    the file may not be read, [readFile] throws, and [detectEncoding]
    returns the label [unknown] as its normal result. *)
Lemma read_failure_counterexample :
  outcome (readFile "missing.txt") (∅ : Disk) = Throw (ENOENT "missing.txt") ∧
  outcome (detectEncoding "missing.txt") (∅ : Disk) = Ok unknown ∧
  outcome (detectEncoding "missing.txt") (∅ : Disk)
    ≠ Throw (ENOENT "missing.txt") ∧
  outcome (readFile "locked.txt")
    ({["locked.txt" := mkFile false true Sample.dict_utf8]} : Disk)
    = Throw (EACCES "locked.txt") ∧
  outcome (detectEncoding "locked.txt")
    ({["locked.txt" := mkFile false true Sample.dict_utf8]} : Disk)
    = Ok unknown.
Proof.
  split; [reflexivity |]. split; [reflexivity |]. split; [done |].
  split; vm_compute; reflexivity.
Qed.

(** * Further properties of the code *)

(** ** The classifier, byte by byte *)

Lemma items_error_replacement (buffer : list byte) :
  None ∈ Utf8.items buffer → U_FFFD ∈ Utf8.toString buffer.
Proof.
  intros Hin. unfold Utf8.toString.
  apply list_elem_of_In, in_flat_map. exists None.
  split; [by apply list_elem_of_In | by left].
Qed.

Lemma invalid_error (buffer : list byte) :
  ¬ Utf8.valid buffer → None ∈ Utf8.items buffer.
Proof.
  unfold Utf8.valid. intros Hnot.
  apply not_Forall_Exists in Hnot; [| apply _].
  apply Exists_exists in Hnot as (it & Hin & Hit).
  destruct it as [cp |]; [| done]. by destruct Hit.
Qed.

Lemma classify_utf8_plausible (buffer : list byte) :
  classify buffer = utf8 ↔ plausible in_A_ya (Utf8.toString buffer).
Proof.
  pose proof (classify_first_match buffer) as Hfm. split.
  - intros Heq. rewrite Heq in Hfm. by inversion Hfm.
  - intros Hp. apply (first_match_functional in_A_ya buffer); [done |].
    by apply fm_utf8.
Qed.

Lemma Windows1251_char_class (b : byte) :
  in_class_A_Ya_a_ya (Windows1251.char (byte_val b))
  = (0xC0 <=? byte_val b)%Z.
Proof. destruct b; reflexivity. Qed.

Lemma Windows1251_char_replacement (b : byte) :
  (U_FFFD =? Windows1251.char (byte_val b))%Z = bool_decide (b = x98).
Proof. destruct b; reflexivity. Qed.

Lemma Windows1251_has_letter (buffer : list byte) :
  has_letter in_A_ya (Windows1251.decode buffer) ↔
  ∃ b, b ∈ buffer ∧ (0xC0 ≤ byte_val b)%Z.
Proof.
  unfold has_letter, Windows1251.decode. split.
  - intros (c & Hc & Hl).
    apply list_elem_of_fmap in Hc as (b & -> & Hb). exists b. split; [done |].
    apply in_class_spec in Hl. rewrite Windows1251_char_class in Hl. lia.
  - intros (b & Hb & Hge). exists (Windows1251.char (byte_val b)).
    split; [by apply (list_elem_of_fmap_2 (λ b, Windows1251.char (byte_val b))) |].
    apply in_class_spec. rewrite Windows1251_char_class. lia.
Qed.

Lemma Windows1251_replacement (buffer : list byte) :
  U_FFFD ∈ Windows1251.decode buffer ↔ x98 ∈ buffer.
Proof.
  unfold Windows1251.decode. split.
  - intros Hin. apply list_elem_of_fmap in Hin as (b & Heq & Hb).
    apply Z.eqb_eq in Heq. rewrite Windows1251_char_replacement in Heq.
    apply bool_decide_eq_true in Heq. by subst.
  - intros Hin.
    by apply (list_elem_of_fmap_2 (λ b, Windows1251.char (byte_val b))) in Hin.
Qed.

(** X1: a buffer labelled [utf8] is well-formed UTF-8 and holds a byte
    above 0x7F; a buffer that is not well-formed UTF-8 is never [utf8]. *)
Theorem utf8_label_sound (buffer : list byte) :
  classify buffer = utf8 →
  Utf8.valid buffer ∧ ∃ b, b ∈ buffer ∧ (0x80 ≤ byte_val b)%Z.
Proof.
  intros Hutf8. split.
  - destruct (decide (Utf8.valid buffer)) as [Hv | Hnv]; [done |].
    apply classify_utf8_plausible in Hutf8 as [_ Hno].
    destruct Hno. by apply items_error_replacement, invalid_error.
  - destruct (decide (Forall is_ascii buffer)) as [Hascii | Hnot].
    + rewrite classify_ascii in Hutf8 by done. discriminate.
    + apply not_Forall_Exists in Hnot; [| apply _].
      apply Exists_exists in Hnot as (b & Hb & Hnb).
      exists b. split; [done |]. unfold compose, is_ascii in Hnb. lia.
Qed.

Lemma utf8_label_sound_witness :
  classify [xd0; xba; xd0; xbe; xd1; x82] = utf8 ∧
  Utf8.valid [xd0; xba; xd0; xbe; xd1; x82] ∧
  ∃ b, b ∈ [xd0; xba; xd0; xbe; xd1; x82] ∧ (0x80 ≤ byte_val b)%Z.
Proof.
  assert (classify [xd0; xba; xd0; xbe; xd1; x82] = utf8) as Hutf8
    by reflexivity.
  split; [exact Hutf8 |].
  exact (utf8_label_sound _ Hutf8).
Defined.

(** X2: a buffer is labelled [windows1251] exactly when it is not labelled
    [utf8], holds a byte of 0xC0..0xFF (the letters А–я of the code page)
    and holds no byte 0x98. *)
Theorem windows1251_label_bytes (buffer : list byte) :
  classify buffer = windows1251 ↔
  classify buffer ≠ utf8 ∧
  (∃ b, b ∈ buffer ∧ (0xC0 ≤ byte_val b)%Z) ∧
  x98 ∉ buffer.
Proof.
  pose proof (classify_first_match buffer) as Hfm.
  rewrite <- Windows1251_has_letter, <- Windows1251_replacement. split.
  - intros Heq. rewrite Heq in Hfm.
    inversion Hfm as [| _ [Hl Hno] |]. by rewrite Heq.
  - intros (Hnot & Hl & Hno).
    apply (first_match_functional in_A_ya buffer); [done |].
    apply fm_windows1251; [| done].
    by rewrite <- classify_utf8_plausible.
Qed.

Lemma Utf8_lead_high (b : Z) :
  (0xC0 ≤ b)%Z →
  (∃ st, Utf8.lead b = (st, []) ∧ Utf8.bytes_needed st ≠ 0%Z ∧
         (0x80 ≤ Utf8.lower_boundary st)%Z ∧
         (Utf8.upper_boundary st ≤ 0xBF)%Z) ∨
  Utf8.lead b = (Utf8.init, [None]).
Proof.
  intros Hb. unfold Utf8.lead.
  destruct (Z.leb_spec b 0x7F); [lia |].
  destruct ((0xC2 <=? b)%Z && (b <=? 0xDF)%Z).
  { left. eexists. split; [done |]. cbn. lia. }
  destruct ((0xE0 <=? b)%Z && (b <=? 0xEF)%Z).
  { left. eexists. split; [done |]. cbn.
    destruct (b =? 0xE0)%Z, (b =? 0xED)%Z; lia. }
  destruct ((0xF0 <=? b)%Z && (b <=? 0xF4)%Z).
  { left. eexists. split; [done |]. cbn.
    destruct (b =? 0xF0)%Z, (b =? 0xF4)%Z; lia. }
  by right.
Qed.

Lemma Utf8_run_open_error (st : Utf8.state) (buffer : list byte) :
  Utf8.bytes_needed st ≠ 0%Z →
  (0x80 ≤ Utf8.lower_boundary st)%Z → (Utf8.upper_boundary st ≤ 0xBF)%Z →
  Forall (λ b, (byte_val b < 0x80)%Z ∨ (0xC0 ≤ byte_val b)%Z) buffer →
  None ∈ Utf8.run st buffer.
Proof.
  intros Hneeded Hlow Hup Hbytes.
  destruct Hbytes as [| b rest Hb _]; cbn [Utf8.run].
  - destruct (Z.eqb_spec (Utf8.bytes_needed st) 0); [done |].
    apply list_elem_of_here.
  - unfold Utf8.step.
    destruct (Z.eqb_spec (Utf8.bytes_needed st) 0); [done |].
    replace ((byte_val b <? Utf8.lower_boundary st)%Z
             || (Utf8.upper_boundary st <? byte_val b)%Z) with true
      by (symmetry; apply orb_true_iff; lia).
    destruct (Utf8.lead (byte_val b)) as [st' out]. apply list_elem_of_here.
Qed.

Lemma Utf8_run_init_error (buffer : list byte) :
  Forall (λ b, (byte_val b < 0x80)%Z ∨ (0xC0 ≤ byte_val b)%Z) buffer →
  (∃ b, b ∈ buffer ∧ (0xC0 ≤ byte_val b)%Z) →
  None ∈ Utf8.run Utf8.init buffer.
Proof.
  induction 1 as [| b rest Hb Hrest IH]; intros (b' & Hin & Hhigh).
  { by apply elem_of_nil in Hin. }
  cbn [Utf8.run]. unfold Utf8.step. cbn [Utf8.bytes_needed Utf8.init].
  rewrite Z.eqb_refl.
  destruct (Z.le_gt_cases 0xC0 (byte_val b)) as [Hge | Hlt].
  - destruct (Utf8_lead_high _ Hge) as [(st & -> & Hn & Hl & Hu) | ->].
    + cbn [app]. by apply Utf8_run_open_error.
    + apply list_elem_of_here.
  - assert (byte_val b < 0x80)%Z as Hascii by lia.
    unfold Utf8.lead.
    destruct (Z.leb_spec (byte_val b) 0x7F); [| lia].
    cbn [app]. apply list_elem_of_further, IH.
    apply elem_of_cons in Hin as [-> | Hin]; [lia |]. by exists b'.
Qed.

(** X3: a buffer made of 7-bit bytes and bytes of 0xC0..0xFF, with at
    least one of the latter, is labelled [windows1251]: text of the letters
    А–я with ASCII punctuation and line ends, written in Windows-1251, is
    never taken for UTF-8 and never [unknown]. *)
Theorem windows1251_text_detected (buffer : list byte) :
  Forall (λ b, (byte_val b < 0x80)%Z ∨ (0xC0 ≤ byte_val b)%Z) buffer →
  (∃ b, b ∈ buffer ∧ (0xC0 ≤ byte_val b)%Z) →
  classify buffer = windows1251.
Proof.
  intros Hbytes Hhigh.
  apply (first_match_functional in_A_ya buffer);
    [apply classify_first_match |].
  apply fm_windows1251; [| split].
  - intros [_ Hno].
    apply Hno, items_error_replacement. by apply Utf8_run_init_error.
  - by apply Windows1251_has_letter.
  - rewrite Windows1251_replacement.
    intros Hin. rewrite Forall_forall in Hbytes.
    specialize (Hbytes _ Hin). vm_compute in Hbytes.
    destruct Hbytes as [H | H]; [discriminate | by apply H].
Qed.

Lemma windows1251_text_detected_witness :
  classify Sample.words_cp1251 = windows1251.
Proof.
  apply windows1251_text_detected.
  - unfold Sample.words_cp1251.
    repeat (constructor; [vm_compute; (by left) || (right; discriminate) |]).
    constructor.
  - exists xea. split; [apply list_elem_of_here | by vm_compute].
Defined.

(** ** The line-set operations together *)

Lemma foldl_Set_add_absorb (l s : list jsstring) :
  (∀ x, x ∈ l → x ∈ s) → foldl Set_add s l = s.
Proof.
  induction l as [| w l IH]; intros Hin; cbn [foldl]; [done |].
  rewrite Set_add_old by apply Hin, list_elem_of_here.
  apply IH. intros x Hx. by apply Hin, list_elem_of_further.
Qed.

Lemma foldl_Set_add_len_le (l s : list jsstring) :
  (len s ≤ len (foldl Set_add s l) ≤ len s + len l)%Z.
Proof.
  revert s. induction l as [| w l IH]; intros s; cbn [foldl].
  - unfold len. cbn [length]. lia.
  - specialize (IH (Set_add s w)).
    assert (len s ≤ len (Set_add s w) ≤ len s + 1)%Z as Hstep.
    { destruct (decide (w ∈ s)).
      - rewrite Set_add_old by done. lia.
      - rewrite Set_add_new by done. unfold len.
        rewrite length_app. cbn [length]. lia. }
    unfold len in *. cbn [length]. lia.
Qed.

Lemma subtract_eq (P R : list jsstring) :
  subtract P R =
    mkDeleteResult (filter (λ x, x ∉ R) P)
                   (len P - len (filter (λ x, x ∉ R) P)).
Proof.
  pose proof (subtract_result P R) as Hres.
  unfold subtract in *. cbn [del_result] in Hres. by rewrite Hres.
Qed.

Lemma filter_all (R : list jsstring) (P : list jsstring) :
  (∀ x, x ∈ P → x ∉ R) → filter (λ x, x ∉ R) P = P.
Proof.
  induction P as [| y P IH]; intros Hall; [done |].
  rewrite filter_cons, decide_True by apply Hall, list_elem_of_here.
  f_equal. apply IH. intros x Hx. by apply Hall, list_elem_of_further.
Qed.

Lemma filter_len_le (R : list jsstring) (P : list jsstring) :
  (len (filter (λ x, x ∉ R) P) ≤ len P)%Z.
Proof. unfold len. apply inj_le, length_filter. Qed.

(** X4: [add] writes what [sort] would write for the dictionary followed by
    the new words. *)
Theorem merge_is_normalize_of_concat (cmp : jsstring → jsstring → Z)
    (A B : list jsstring) :
  add_sortedWords (merge cmp A B) = sort_sortedWords (normalize cmp (A ++ B)).
Proof.
  rewrite merge_unfold. unfold normalize, new_Set.
  cbn [add_sortedWords sort_sortedWords]. by rewrite foldl_app.
Qed.

(** X5: the counts of [add] add up: the distinct lines of the dictionary
    plus the added words are the words written; the added count is neither
    negative nor above the number of new lines read. *)
Theorem merge_counts (cmp : jsstring → jsstring → Z) (A B : list jsstring) :
  (add_originalCount (merge cmp A B) + add_addedCount (merge cmp A B)
   = len (add_sortedWords (merge cmp A B)))%Z ∧
  (0 ≤ add_addedCount (merge cmp A B) ≤ len B)%Z ∧
  (0 ≤ add_originalCount (merge cmp A B) ≤ len A)%Z.
Proof.
  rewrite merge_unfold.
  cbn [add_sortedWords add_originalCount add_addedCount].
  rewrite Array_sort_len.
  pose proof (foldl_Set_add_len_le B (new_Set A)).
  pose proof (new_Set_len_le A).
  assert (0 ≤ len (new_Set A))%Z by (unfold len; lia).
  lia.
Qed.

(** X6: [delete] applied to its own output with the same rejected words
    removes nothing more. *)
Theorem subtract_idempotent (P R : list jsstring) :
  subtract (del_result (subtract P R)) R =
    mkDeleteResult (del_result (subtract P R)) 0.
Proof.
  rewrite (subtract_eq P R). cbn [del_result]. rewrite subtract_eq.
  rewrite (filter_all R (filter (λ x, x ∉ R) P)).
  - f_equal. lia.
  - intros x Hx. by apply list_elem_of_filter in Hx as [Hx _].
Qed.

(** X7: what [delete] removes at the ends of the range: nothing is removed
    exactly when no dictionary line is rejected, and nothing is left
    exactly when every dictionary line is rejected; so an empty rejection
    list leaves the dictionary as it is, and a dictionary rejected against
    itself is emptied. *)
Theorem subtract_extremes (P R : list jsstring) :
  (del_deletedCount (subtract P R) = 0%Z ↔ ∀ x, x ∈ P → x ∉ R) ∧
  (del_result (subtract P R) = [] ↔ ∀ x, x ∈ P → x ∈ R) ∧
  subtract P [] = mkDeleteResult P 0 ∧
  subtract P P = mkDeleteResult [] (len P).
Proof.
  assert (∀ R' : list jsstring,
            (∀ x, x ∈ P → x ∈ R') → filter (λ x, x ∉ R') P = [])
    as Hnone.
  { intros R' Hall. induction P as [| y P IH]; [done |].
    rewrite filter_cons, decide_False.
    - apply IH. intros x Hx. by apply Hall, list_elem_of_further.
    - intros Hn. apply Hn, Hall, list_elem_of_here. }
  split; [| split; [| split]].
  - rewrite subtract_eq. cbn [del_deletedCount]. split.
    + intros Hzero x Hx.
      assert (filter (λ x, x ∉ R) P ≡ₚ P) as Hperm.
      { apply submseteq_length_Permutation;
          [apply sublist_submseteq, sublist_filter |].
        unfold len in Hzero. lia. }
      rewrite <- Hperm in Hx. by apply list_elem_of_filter in Hx as [Hx _].
    + intros Hall. rewrite filter_all by done. lia.
  - rewrite subtract_eq. cbn [del_result]. split; [| apply Hnone].
    intros Hnil x Hx. destruct (decide (x ∈ R)) as [| Hn]; [done |].
    assert (x ∈ filter (λ x, x ∉ R) P) as Hin
      by by apply list_elem_of_filter.
    rewrite Hnil in Hin. by apply elem_of_nil in Hin.
  - rewrite subtract_eq, filter_all.
    + f_equal. lia.
    + intros x _ Hin. by apply elem_of_nil in Hin.
  - rewrite subtract_eq, Hnone by done. f_equal. unfold len. cbn. lia.
Qed.

(** X8: [sort] reports no duplicate exactly when no line occurs twice, and
    writes as many words as there are distinct lines. *)
Theorem normalize_duplicates (cmp : jsstring → jsstring → Z)
    (lines : list jsstring) :
  (sort_duplicatesRemoved (normalize cmp lines) = 0%Z ↔ NoDup lines) ∧
  len (sort_sortedWords (normalize cmp lines))
    = Z.of_nat (size (list_to_set lines : gset jsstring)).
Proof.
  unfold normalize. cbn [sort_duplicatesRemoved sort_sortedWords].
  rewrite Array_sort_len. split; [| apply new_Set_len].
  split.
  - intros Hzero.
    assert (new_Set lines ≡ₚ lines) as Hperm.
    { apply submseteq_length_Permutation.
      - apply NoDup_submseteq; [apply new_Set_NoDup |].
        intros x. by rewrite new_Set_elem.
      - unfold len in Hzero. lia. }
    rewrite <- Hperm. apply new_Set_NoDup.
  - intros Hnd. rewrite new_Set_fresh by done. lia.
Qed.

(** X9: deleting words from what [add] wrote for them leaves the
    dictionary words that are not among them, each once, in the order
    [add] gave them. *)
Theorem subtract_after_merge (cmp : jsstring → jsstring → Z)
    (A B : list jsstring) :
  NoDup (del_result (subtract (add_sortedWords (merge cmp A B)) B)) ∧
  (∀ x, x ∈ del_result (subtract (add_sortedWords (merge cmp A B)) B)
        ↔ x ∈ A ∧ x ∉ B) ∧
  del_result (subtract (add_sortedWords (merge cmp A B)) B)
    `sublist_of` add_sortedWords (merge cmp A B).
Proof.
  rewrite subtract_result. split; [| split].
  - apply NoDup_filter. rewrite merge_unfold. cbn [add_sortedWords].
    apply Array_sort_NoDup, foldl_Set_add_NoDup, new_Set_NoDup.
  - intros x. rewrite list_elem_of_filter, merge_elem. tauto.
  - apply sublist_filter.
Qed.

Section Repeated.
Variable cmp : jsstring → jsstring → Z.
Hypothesis cmp_total : ∀ a b, precedes cmp a b ∨ precedes cmp b a.

(** X10: [add] run a second time with the same new words adds nothing and
    writes the same words in the same order. *)
Theorem merge_idempotent (A B : list jsstring) :
  merge cmp (add_sortedWords (merge cmp A B)) B =
    mkAddResult (add_sortedWords (merge cmp A B))
                (len (add_sortedWords (merge cmp A B))) 0.
Proof using cmp_total.
  set (out := add_sortedWords (merge cmp A B)).
  assert (NoDup out) as Hnd.
  { unfold out. rewrite merge_unfold. cbn [add_sortedWords].
    apply Array_sort_NoDup, foldl_Set_add_NoDup, new_Set_NoDup. }
  assert (Sorted (precedes cmp) out) as Hsorted.
  { unfold out. rewrite merge_unfold. cbn [add_sortedWords].
    by apply Array_sort_Sorted. }
  assert (∀ x, x ∈ B → x ∈ out) as Hin.
  { intros x Hx. unfold out. rewrite merge_elem. by right. }
  rewrite merge_unfold, (new_Set_fresh out Hnd).
  rewrite (foldl_Set_add_absorb B out Hin).
  rewrite (Array_sort_sorted cmp out Hsorted). f_equal. lia.
Qed.
End Repeated.

Lemma merge_idempotent_witness :
  merge Sample.compare
    (add_sortedWords
       (merge Sample.compare [Sample.kot; Sample.pyos]
          [Sample.kot; Sample.lisa]))
    [Sample.kot; Sample.lisa] =
  mkAddResult [Sample.kot; Sample.lisa; Sample.pyos] 3 0.
Proof.
  exact (merge_idempotent Sample.compare Sample_compare_total
           [Sample.kot; Sample.pyos] [Sample.kot; Sample.lisa]).
Defined.

(** X11: [delete] keeps a sorted dictionary without duplicates sorted and
    without duplicates: [sort] applied to its output changes nothing. *)
Theorem subtract_keeps_normalized (cmp : jsstring → jsstring → Z)
    (P R : list jsstring) :
  StronglySorted (precedes cmp) P → NoDup P →
  StronglySorted (precedes cmp) (del_result (subtract P R)) ∧
  NoDup (del_result (subtract P R)) ∧
  normalize cmp (del_result (subtract P R)) =
    mkSortResult (del_result (subtract P R)) 0.
Proof.
  intros Hsorted Hnd. rewrite subtract_result.
  assert (StronglySorted (precedes cmp) (filter (λ x, x ∉ R) P)) as Hs.
  { induction Hsorted as [| x P HP IH Hx]; [constructor |].
    apply NoDup_cons in Hnd as [_ Hnd].
    rewrite filter_cons. case_decide; [| by apply IH].
    constructor; [by apply IH |].
    apply Forall_forall. intros y Hy%list_elem_of_filter.
    rewrite Forall_forall in Hx. by apply Hx, Hy. }
  assert (NoDup (filter (λ x, x ∉ R) P)) as Hn by by apply NoDup_filter.
  split; [done |]. split; [done |].
  unfold normalize. rewrite (new_Set_fresh _ Hn).
  rewrite (Array_sort_sorted cmp _ (StronglySorted_Sorted Hs)).
  f_equal. lia.
Qed.

Lemma subtract_keeps_normalized_witness :
  StronglySorted (precedes Sample.compare)
    [Sample.banan; Sample.grusha; Sample.yabloko] ∧
  NoDup [Sample.banan; Sample.grusha; Sample.yabloko] ∧
  normalize Sample.compare
    (del_result
       (subtract [Sample.banan; Sample.grusha; Sample.yabloko]
          [Sample.grusha])) =
  mkSortResult [Sample.banan; Sample.yabloko] 0.
Proof.
  assert (StronglySorted (precedes Sample.compare)
            [Sample.banan; Sample.grusha; Sample.yabloko]) as Hs.
  { change [Sample.banan; Sample.grusha; Sample.yabloko]
      with (Array_sort Sample.compare
              [Sample.banan; Sample.yabloko; Sample.grusha]).
    apply Array_sort_StronglySorted;
      [apply Sample_compare_total | apply Sample_compare_trans]. }
  assert (NoDup [Sample.banan; Sample.grusha; Sample.yabloko]) as Hn.
  { apply (bool_decide_unpack
             (NoDup [Sample.banan; Sample.grusha; Sample.yabloko])).
    by vm_compute. }
  split; [exact Hs |]. split; [exact Hn |].
  exact (proj2 (proj2
           (subtract_keeps_normalized Sample.compare _ [Sample.grusha]
              Hs Hn))).
Defined.

(** ** Reading and writing lines *)

Lemma trim_start_elem (s : jsstring) (c : Z) : c ∈ trim_start s → c ∈ s.
Proof.
  induction s as [| x s IH]; [done |]. cbn [trim_start].
  destruct (is_white_space x); [| done].
  intros Hc. by apply list_elem_of_further, IH.
Qed.

Lemma trim_start_head (s : jsstring) :
  (∃ c, c ∈ s ∧ is_white_space c = false) →
  ∃ c rest, trim_start s = c :: rest ∧ is_white_space c = false.
Proof.
  induction s as [| x s IH]; intros (c & Hc & Hns).
  { by apply elem_of_nil in Hc. }
  cbn [trim_start]. destruct (is_white_space x) eqn:Hx.
  - apply elem_of_cons in Hc as [-> | Hc]; [congruence |].
    apply IH. by exists c.
  - by exists x, s.
Qed.

Lemma trim_start_head_inv (s : jsstring) (c : Z) (rest : jsstring) :
  trim_start s = c :: rest → is_white_space c = false.
Proof.
  induction s as [| x s IH]; [done |]. cbn [trim_start].
  destruct (is_white_space x) eqn:Hx; [done |]. by intros [= <- _].
Qed.

Lemma truthy_trim (s : jsstring) :
  truthy (trim s) = true ↔ ∃ c, c ∈ s ∧ is_white_space c = false.
Proof.
  unfold trim. split.
  - destruct (trim_start (rev (trim_start s))) as [| c rest] eqn:Hts;
      [done |]. intros _.
    exists c. split; [| by apply (trim_start_head_inv _ _ _ Hts)].
    apply trim_start_elem.
    rewrite list_elem_of_In, in_rev, <- list_elem_of_In.
    apply trim_start_elem. rewrite Hts. apply list_elem_of_here.
  - intros Hex.
    destruct (trim_start_head s Hex) as (c & rest & Hs & Hc).
    destruct (trim_start_head (rev (trim_start s))) as (c' & rest' & Hr & _).
    { exists c. split; [| done].
      rewrite list_elem_of_In, <- in_rev, Hs. by left. }
    rewrite Hr. cbn [rev]. by destruct (rev rest').
Qed.

Lemma readFileLines_Ok (host : Host) (filePath : string)
    (encoding : EncodingLabel) (d : Disk) (lines : list jsstring) :
  outcome (readFileLines host filePath encoding) d = Ok lines →
  lines = decoded_lines host encoding (file_bytes d filePath) ∧
  disk_after (readFileLines host filePath encoding) d = d ∧
  encoding ≠ unknown.
Proof.
  unfold outcome, disk_after, readFileLines, stream_bytes, file_bytes.
  io_unfold.
  destruct encoding; cbn; (destruct (d !! filePath) as [f |] eqn:Hf;
    [destruct (readable f) |]); cbn; try done; by intros [= <-].
Qed.

Lemma List_filter_sublist {A} (keep : A → bool) (s : list A) :
  List.filter keep s `sublist_of` s.
Proof.
  induction s as [| x s IH]; cbn [List.filter]; [constructor |].
  destruct (keep x); by constructor.
Qed.

Lemma List_filter_sublist_max {A} (keep : A → bool) (s l : list A) :
  l `sublist_of` s → Forall (λ x, keep x = true) l →
  l `sublist_of` List.filter keep s.
Proof.
  induction 1 as [| x l1 l2 Hsub IH | x l1 l2 Hsub IH]; intros Hall;
    cbn [List.filter].
  - constructor.
  - apply Forall_cons in Hall as [Hx Hall]. rewrite Hx.
    constructor. by apply IH.
  - destruct (keep x); [constructor |]; by apply IH.
Qed.

(** X12: the lines [readFileLines] returns are exactly the lines of the
    decoded stream that hold a character other than white space, in their
    order and each as often as it occurs: they are a subsequence of the
    stream without empty or blank line, and every such subsequence of the
    stream is a subsequence of them.  The disk is left as it was and the
    encoding was a recognised one. *)
Theorem readFileLines_no_blank_line (host : Host) (filePath : string)
    (encoding : EncodingLabel) (d : Disk) (lines : list jsstring) :
  outcome (readFileLines host filePath encoding) d = Ok lines →
  Forall (λ line, ∃ c, c ∈ line ∧ is_white_space c = false) lines ∧
  lines `sublist_of`
    readline host (decodeStream host encoding (file_bytes d filePath)) ∧
  (∀ l,
     l `sublist_of`
       readline host (decodeStream host encoding (file_bytes d filePath)) →
     Forall (λ line, ∃ c, c ∈ line ∧ is_white_space c = false) l →
     l `sublist_of` lines) ∧
  (∀ line,
     line ∈ readline host (decodeStream host encoding (file_bytes d filePath)) →
     (∃ c, c ∈ line ∧ is_white_space c = false) → line ∈ lines) ∧
  disk_after (readFileLines host filePath encoding) d = d ∧
  encoding ≠ unknown.
Proof.
  intros (-> & Hdisk & Henc)%readFileLines_Ok. unfold decoded_lines.
  split; [| split; [| split; [| split; [| done]]]].
  - apply Forall_forall. intros line Hin.
    apply list_elem_of_In, filter_In in Hin as [_ Hin].
    by apply truthy_trim.
  - apply List_filter_sublist.
  - intros l Hsub Hall. apply List_filter_sublist_max; [done |].
    eapply Forall_impl; [exact Hall |].
    intros line Hline. by apply truthy_trim.
  - intros line Hin Hex. apply list_elem_of_In, filter_In.
    split; [by apply list_elem_of_In | by apply truthy_trim].
Qed.

Lemma readFileLines_no_blank_line_witness :
  outcome (readFileLines Sample.host "dict.txt" utf8) Sample.disk
    = Ok [Sample.kot; Sample.pyos] ∧
  Forall (λ line, ∃ c, c ∈ line ∧ is_white_space c = false)
    [Sample.kot; Sample.pyos].
Proof.
  assert (outcome (readFileLines Sample.host "dict.txt" utf8) Sample.disk
          = Ok [Sample.kot; Sample.pyos]) as Hrun
    by (vm_compute; reflexivity).
  split; [exact Hrun |].
  exact (proj1 (readFileLines_no_blank_line _ _ _ _ _ Hrun)).
Defined.

Example readFileLines_keeps_repeats :
  outcome (readFileLines Sample.host "f" windows1251)
    ({["f" := Sample.plain
                [xea; xee; xf2; x0a; xeb; xe8; xf1; xe0; x0a;
                 xea; xee; xf2; x0a]]} : Disk)
  = Ok [Sample.kot; Sample.lisa; Sample.kot].
Proof. vm_compute. reflexivity. Qed.

Example readFileLines_skips_blank :
  outcome (readFileLines Sample.host "f" utf8)
    ({["f" := Sample.plain [x0a; x20; x09; x0a; xd0; xba; x0a; x0a]]} : Disk)
  = Ok [[0x043A%Z]].
Proof. vm_compute. reflexivity. Qed.

(** X13: [writeFileLines] with a recognised encoding either stores the
    whole encoded text in the file (creating the file when there is none)
    or, when the file may not be written, throws the error of the stream
    and leaves the disk as it was; no other file is touched. *)
Theorem writeFileLines_all_or_nothing (host : Host) (filePath : string)
    (lines : list jsstring) (encoding : EncodingLabel) (d : Disk) :
  encoding ≠ unknown →
  (d !! filePath = None ∨ (∃ f, d !! filePath = Some f ∧ writable f = true) →
   outcome (writeFileLines host filePath lines encoding) d = Ok () ∧
   file_bytes (disk_after (writeFileLines host filePath lines encoding) d)
     filePath = encodeStream host encoding (joined lines) ∧
   events (writeFileLines host filePath lines encoding) d =
     [EvCreateWriteStream filePath; EvWrite filePath encoding lines]) ∧
  ((∃ f, d !! filePath = Some f ∧ writable f = false) →
   writeFileLines host filePath lines encoding d =
     (Throw (EACCES filePath), d, [EvCreateWriteStream filePath])) ∧
  (∀ q, q ≠ filePath →
        disk_after (writeFileLines host filePath lines encoding) d !! q
        = d !! q).
Proof.
  intros Henc.
  unfold outcome, disk_after, events, writeFileLines, stream_write, file_bytes.
  io_unfold.
  destruct encoding; [| | done]; cbn;
    (destruct (d !! filePath) as [f |] eqn:Hf; [destruct (writable f) eqn:Hw |]);
    cbn; (split; [| split]).
  all: try (intros _; by rewrite lookup_insert_eq).
  all: try (intros q Hq; by rewrite ?lookup_insert_ne).
  all: try (intros [? | (f' & [= <-] & ?)]; congruence).
  all: try (intros (f' & [= <-] & ?); congruence).
  all: try (by intros (f' & ? & ?)).
  all: done.
Qed.

Lemma writeFileLines_all_or_nothing_witness :
  utf8 ≠ unknown ∧
  file_bytes
    (disk_after (writeFileLines Sample.host "out.txt" [Sample.kot] utf8)
       Sample.disk) "out.txt"
  = [xd0; xba; xd0; xbe; xd1; x82; x0a].
Proof.
  assert (utf8 ≠ unknown) as Henc by discriminate.
  split; [exact Henc |].
  destruct (writeFileLines_all_or_nothing Sample.host "out.txt"
              [Sample.kot] utf8 Sample.disk Henc) as (Hok & _ & _).
  destruct Hok as (_ & Hbytes & _); [by left |].
  rewrite Hbytes. reflexivity.
Defined.

(** X14: [detectEncoding] never throws: for every disk and path it returns
    a label after one read and leaves the disk as it was; the label is the
    one of the file's bytes when the file can be read, and a label other
    than [unknown] is only given for a file that was read. *)
Theorem detectEncoding_never_throws (filePath : string) (d : Disk) :
  ∃ label,
    detectEncoding filePath d = (Ok label, d, [EvReadFile filePath]) ∧
    (∀ f, d !! filePath = Some f → readable f = true →
          label = classify (content f)) ∧
    (label ≠ unknown →
     ∃ f, d !! filePath = Some f ∧ readable f = true ∧
          label = classify (content f)).
Proof.
  exists (detected d filePath). split; [apply detectEncoding_run |]. split.
  - intros f Hf Hr.
    unfold detected, outcome, detectEncoding, try_catch, readFile.
    unfold mbind, IO_bind, io_bind, mret, IO_ret, io_ret.
    by rewrite Hf, Hr.
  - intros Hknown. destruct (detected_known _ _ Hknown) as (f & Hf & Hr & Hc).
    by exists f.
Qed.

(** ** The commands, case by case *)

Lemma addWords_known (host : Host) (dictPath newWordsPath : string)
    (d : Disk) (f : File) :
  detected d dictPath ≠ unknown → detected d newWordsPath ≠ unknown →
  d !! dictPath = Some f →
  addWords host dictPath newWordsPath d =
    let r := merge (localeCompare host)
               (decoded_lines host (detected d dictPath)
                  (file_bytes d dictPath))
               (decoded_lines host (detected d newWordsPath)
                  (file_bytes d newWordsPath)) in
    if writable f
    then (Ok (),
          <[dictPath := mkFile (readable f) true
              (encodeStream host (detected d dictPath)
                 (joined (add_sortedWords r)))]> d,
          [EvReadFile dictPath; EvReadFile newWordsPath;
           EvCreateReadStream dictPath; EvCreateReadStream newWordsPath;
           EvCreateWriteStream dictPath;
           EvWrite dictPath (detected d dictPath) (add_sortedWords r);
           EvSummary (add_addedCount r) (len (add_sortedWords r))])
    else (Exit 1, d,
          [EvReadFile dictPath; EvReadFile newWordsPath;
           EvCreateReadStream dictPath; EvCreateReadStream newWordsPath;
           EvCreateWriteStream dictPath]).
Proof.
  intros He1 He2 Hf.
  unfold addWords. unfold try_catch, mbind, IO_bind, io_bind.
  rewrite !detectEncoding_run.
  rewrite (readFileLines_detected host dictPath d He1).
  rewrite (readFileLines_detected host newWordsPath d He2).
  rewrite (writeFileLines_run host dictPath d _ _ f He1 Hf).
  by destruct (writable f).
Qed.

Lemma deleteWords_known (host : Host) (dictPath wordsToDeletePath : string)
    (d : Disk) (f : File) :
  detected d dictPath ≠ unknown → detected d wordsToDeletePath ≠ unknown →
  d !! dictPath = Some f →
  deleteWords host dictPath wordsToDeletePath d =
    let r := subtract
               (decoded_lines host (detected d dictPath)
                  (file_bytes d dictPath))
               (decoded_lines host (detected d wordsToDeletePath)
                  (file_bytes d wordsToDeletePath)) in
    if writable f
    then (Ok (),
          <[dictPath := mkFile (readable f) true
              (encodeStream host (detected d dictPath)
                 (joined (del_result r)))]> d,
          [EvReadFile dictPath; EvReadFile wordsToDeletePath;
           EvCreateReadStream dictPath; EvCreateReadStream wordsToDeletePath;
           EvCreateWriteStream dictPath;
           EvWrite dictPath (detected d dictPath) (del_result r);
           EvSummary (del_deletedCount r) (len (del_result r))])
    else (Exit 1, d,
          [EvReadFile dictPath; EvReadFile wordsToDeletePath;
           EvCreateReadStream dictPath; EvCreateReadStream wordsToDeletePath;
           EvCreateWriteStream dictPath]).
Proof.
  intros He1 He2 Hf.
  unfold deleteWords. unfold try_catch, mbind, IO_bind, io_bind.
  rewrite !detectEncoding_run.
  rewrite (readFileLines_detected host dictPath d He1).
  rewrite (readFileLines_detected host wordsToDeletePath d He2).
  rewrite (writeFileLines_run host dictPath d _ _ f He1 Hf).
  by destruct (writable f).
Qed.

Lemma sortDictionary_known (host : Host) (dictPath : string) (d : Disk)
    (f : File) :
  detected d dictPath ≠ unknown → d !! dictPath = Some f →
  sortDictionary host dictPath d =
    let r := normalize (localeCompare host)
               (decoded_lines host (detected d dictPath)
                  (file_bytes d dictPath)) in
    if writable f
    then (Ok (),
          <[dictPath := mkFile (readable f) true
              (encodeStream host (detected d dictPath)
                 (joined (sort_sortedWords r)))]> d,
          [EvReadFile dictPath; EvCreateReadStream dictPath;
           EvCreateWriteStream dictPath;
           EvWrite dictPath (detected d dictPath) (sort_sortedWords r);
           EvSummary (sort_duplicatesRemoved r) (len (sort_sortedWords r))])
    else (Exit 1, d,
          [EvReadFile dictPath; EvCreateReadStream dictPath;
           EvCreateWriteStream dictPath]).
Proof.
  intros He1 Hf.
  unfold sortDictionary. unfold try_catch, mbind, IO_bind, io_bind.
  rewrite !detectEncoding_run.
  rewrite (readFileLines_detected host dictPath d He1).
  rewrite (writeFileLines_run host dictPath d _ _ f He1 Hf).
  by destruct (writable f).
Qed.

Lemma leaves_untouched_not_Ok (m : IO unit) (d : Disk) :
  leaves_untouched m d → outcome m d ≠ Ok ().
Proof. intros (Hexit & _). by rewrite Hexit. Qed.

Lemma shape_frame (host : Host) (d : Disk) (dictPath : string)
    (enc : EncodingLabel) (ls : list jsstring)
    (run : Outcome unit * Disk * list Event) (q : string) :
  run_shape host d dictPath enc ls run → q ≠ dictPath →
  run.1.2 !! q = d !! q.
Proof.
  destruct 1; cbn [fst snd]; intros Hq; try done.
  by rewrite lookup_insert_ne.
Qed.


(** X15: [add], [delete] and [sort] change no file but the dictionary: the
    file of new words, the file of words to delete and every other file
    are on the disk afterwards as before. *)
Theorem commands_touch_only_dictionary (host : Host) (d : Disk)
    (dictPath otherPath q : string) :
  q ≠ dictPath →
  disk_after (addWords host dictPath otherPath) d !! q = d !! q ∧
  disk_after (deleteWords host dictPath otherPath) d !! q = d !! q ∧
  disk_after (sortDictionary host dictPath) d !! q = d !! q.
Proof.
  intros Hq. unfold disk_after. split; [| split].
  - exact (shape_frame _ _ _ _ _ _ _
             (addWords_shape host dictPath otherPath d) Hq).
  - exact (shape_frame _ _ _ _ _ _ _
             (deleteWords_shape host dictPath otherPath d) Hq).
  - exact (shape_frame _ _ _ _ _ _ _
             (sortDictionary_shape host dictPath d) Hq).
Qed.

Lemma commands_touch_only_dictionary_witness :
  "new.txt" ≠ "dict.txt" ∧
  disk_after (addWords Sample.host "dict.txt" "new.txt") Sample.disk
    !! "new.txt" = Some (Sample.plain Sample.words_cp1251).
Proof.
  assert ("new.txt" ≠ "dict.txt") as Hq by discriminate.
  split; [exact Hq |].
  rewrite (proj1 (commands_touch_only_dictionary Sample.host Sample.disk
                    "dict.txt" "new.txt" "new.txt" Hq)).
  reflexivity.
Defined.


(** X17: [add] ends normally exactly when both files get a label other
    than [unknown] and the dictionary may be written; it then has read
    both files, written the merged words once and reported the number of
    added words and the number of words written. *)
Theorem addWords_succeeds (host : Host) (dictPath newWordsPath : string)
    (d : Disk) :
  (outcome (addWords host dictPath newWordsPath) d = Ok () ↔
   detected d dictPath ≠ unknown ∧ detected d newWordsPath ≠ unknown ∧
   ∃ f, d !! dictPath = Some f ∧ writable f = true) ∧
  (outcome (addWords host dictPath newWordsPath) d = Ok () →
   events (addWords host dictPath newWordsPath) d =
     [EvReadFile dictPath; EvReadFile newWordsPath;
      EvCreateReadStream dictPath; EvCreateReadStream newWordsPath;
      EvCreateWriteStream dictPath;
      EvWrite dictPath (detected d dictPath)
        (add_sortedWords
           (merge (localeCompare host)
              (decoded_lines host (detected d dictPath)
                 (file_bytes d dictPath))
              (decoded_lines host (detected d newWordsPath)
                 (file_bytes d newWordsPath))));
      EvSummary
        (add_addedCount
           (merge (localeCompare host)
              (decoded_lines host (detected d dictPath)
                 (file_bytes d dictPath))
              (decoded_lines host (detected d newWordsPath)
                 (file_bytes d newWordsPath))))
        (len (add_sortedWords
           (merge (localeCompare host)
              (decoded_lines host (detected d dictPath)
                 (file_bytes d dictPath))
              (decoded_lines host (detected d newWordsPath)
                 (file_bytes d newWordsPath)))))]).
Proof.
  assert (outcome (addWords host dictPath newWordsPath) d = Ok () →
          detected d dictPath ≠ unknown ∧ detected d newWordsPath ≠ unknown ∧
          ∃ f, d !! dictPath = Some f ∧ writable f = true) as Hcond.
  { intros Hok.
    destruct (decide (detected d dictPath = unknown)) as [He1 | He1].
    { unfold outcome in Hok. by rewrite addWords_unknown in Hok. }
    destruct (decide (detected d newWordsPath = unknown)) as [He2 | He2].
    { by destruct (leaves_untouched_not_Ok _ _
                     (addWords_second_unknown host dictPath _ d He2)). }
    destruct (detected_known _ _ He1) as (f & Hf & _ & _).
    repeat split; try done. exists f. split; [done |].
    unfold outcome in Hok. rewrite (addWords_known host _ _ d f) in Hok by done.
    cbn zeta in Hok. by destruct (writable f). }
  split; [split; [exact Hcond |] |].
  - intros (He1 & He2 & f & Hf & Hw). unfold outcome.
    rewrite (addWords_known host _ _ d f) by done. cbn zeta. by rewrite Hw.
  - intros Hok. destruct (Hcond Hok) as (He1 & He2 & f & Hf & Hw).
    unfold events. rewrite (addWords_known host _ _ d f) by done.
    cbn zeta. by rewrite Hw.
Qed.

Lemma addWords_succeeds_witness :
  outcome (addWords Sample.host "dict.txt" "new.txt") Sample.disk = Ok () ∧
  events (addWords Sample.host "dict.txt" "new.txt") Sample.disk =
    [EvReadFile "dict.txt"; EvReadFile "new.txt";
     EvCreateReadStream "dict.txt"; EvCreateReadStream "new.txt";
     EvCreateWriteStream "dict.txt";
     EvWrite "dict.txt" utf8 [Sample.kot; Sample.lisa; Sample.pyos];
     EvSummary 1 3].
Proof.
  assert (outcome (addWords Sample.host "dict.txt" "new.txt") Sample.disk
          = Ok ()) as Hok by (vm_compute; reflexivity).
  split; [exact Hok |].
  rewrite (proj2 (addWords_succeeds Sample.host "dict.txt" "new.txt"
                    Sample.disk) Hok).
  vm_compute. reflexivity.
Defined.

(** X18: [delete] ends normally exactly when both files get a label other
    than [unknown] and the dictionary may be written; it then has written
    the lines left once and reported the number removed and the number
    left. *)
Theorem deleteWords_succeeds (host : Host)
    (dictPath wordsToDeletePath : string) (d : Disk) :
  (outcome (deleteWords host dictPath wordsToDeletePath) d = Ok () ↔
   detected d dictPath ≠ unknown ∧ detected d wordsToDeletePath ≠ unknown ∧
   ∃ f, d !! dictPath = Some f ∧ writable f = true) ∧
  (outcome (deleteWords host dictPath wordsToDeletePath) d = Ok () →
   events (deleteWords host dictPath wordsToDeletePath) d =
     [EvReadFile dictPath; EvReadFile wordsToDeletePath;
      EvCreateReadStream dictPath; EvCreateReadStream wordsToDeletePath;
      EvCreateWriteStream dictPath;
      EvWrite dictPath (detected d dictPath)
        (del_result
           (subtract
              (decoded_lines host (detected d dictPath)
                 (file_bytes d dictPath))
              (decoded_lines host (detected d wordsToDeletePath)
                 (file_bytes d wordsToDeletePath))));
      EvSummary
        (del_deletedCount
           (subtract
              (decoded_lines host (detected d dictPath)
                 (file_bytes d dictPath))
              (decoded_lines host (detected d wordsToDeletePath)
                 (file_bytes d wordsToDeletePath))))
        (len (del_result
           (subtract
              (decoded_lines host (detected d dictPath)
                 (file_bytes d dictPath))
              (decoded_lines host (detected d wordsToDeletePath)
                 (file_bytes d wordsToDeletePath)))))]).
Proof.
  assert (outcome (deleteWords host dictPath wordsToDeletePath) d = Ok () →
          detected d dictPath ≠ unknown ∧
          detected d wordsToDeletePath ≠ unknown ∧
          ∃ f, d !! dictPath = Some f ∧ writable f = true) as Hcond.
  { intros Hok.
    destruct (decide (detected d dictPath = unknown)) as [He1 | He1].
    { unfold outcome in Hok. by rewrite deleteWords_unknown in Hok. }
    destruct (decide (detected d wordsToDeletePath = unknown))
      as [He2 | He2].
    { by destruct (leaves_untouched_not_Ok _ _
                     (deleteWords_second_unknown host dictPath _ d He2)). }
    destruct (detected_known _ _ He1) as (f & Hf & _ & _).
    repeat split; try done. exists f. split; [done |].
    unfold outcome in Hok.
    rewrite (deleteWords_known host _ _ d f) in Hok by done.
    cbn zeta in Hok. by destruct (writable f). }
  split; [split; [exact Hcond |] |].
  - intros (He1 & He2 & f & Hf & Hw). unfold outcome.
    rewrite (deleteWords_known host _ _ d f) by done. cbn zeta. by rewrite Hw.
  - intros Hok. destruct (Hcond Hok) as (He1 & He2 & f & Hf & Hw).
    unfold events. rewrite (deleteWords_known host _ _ d f) by done.
    cbn zeta. by rewrite Hw.
Qed.

Lemma deleteWords_succeeds_witness :
  outcome (deleteWords Sample.host "dict.txt" "new.txt") Sample.disk = Ok () ∧
  events (deleteWords Sample.host "dict.txt" "new.txt") Sample.disk =
    [EvReadFile "dict.txt"; EvReadFile "new.txt";
     EvCreateReadStream "dict.txt"; EvCreateReadStream "new.txt";
     EvCreateWriteStream "dict.txt";
     EvWrite "dict.txt" utf8 [Sample.pyos];
     EvSummary 1 1].
Proof.
  assert (outcome (deleteWords Sample.host "dict.txt" "new.txt") Sample.disk
          = Ok ()) as Hok by (vm_compute; reflexivity).
  split; [exact Hok |].
  rewrite (proj2 (deleteWords_succeeds Sample.host "dict.txt" "new.txt"
                    Sample.disk) Hok).
  vm_compute. reflexivity.
Defined.

(** X19: [sort] ends normally exactly when the dictionary gets a label
    other than [unknown] and may be written; it then has written the
    sorted distinct lines once and reported the duplicates removed and the
    number of words written. *)
Theorem sortDictionary_succeeds (host : Host) (dictPath : string)
    (d : Disk) :
  (outcome (sortDictionary host dictPath) d = Ok () ↔
   detected d dictPath ≠ unknown ∧
   ∃ f, d !! dictPath = Some f ∧ writable f = true) ∧
  (outcome (sortDictionary host dictPath) d = Ok () →
   events (sortDictionary host dictPath) d =
     [EvReadFile dictPath; EvCreateReadStream dictPath;
      EvCreateWriteStream dictPath;
      EvWrite dictPath (detected d dictPath)
        (sort_sortedWords
           (normalize (localeCompare host)
              (decoded_lines host (detected d dictPath)
                 (file_bytes d dictPath))));
      EvSummary
        (sort_duplicatesRemoved
           (normalize (localeCompare host)
              (decoded_lines host (detected d dictPath)
                 (file_bytes d dictPath))))
        (len (sort_sortedWords
           (normalize (localeCompare host)
              (decoded_lines host (detected d dictPath)
                 (file_bytes d dictPath)))))]).
Proof.
  assert (outcome (sortDictionary host dictPath) d = Ok () →
          detected d dictPath ≠ unknown ∧
          ∃ f, d !! dictPath = Some f ∧ writable f = true) as Hcond.
  { intros Hok.
    destruct (decide (detected d dictPath = unknown)) as [He1 | He1].
    { unfold outcome in Hok. by rewrite sortDictionary_unknown in Hok. }
    destruct (detected_known _ _ He1) as (f & Hf & _ & _).
    split; [done |]. exists f. split; [done |].
    unfold outcome in Hok.
    rewrite (sortDictionary_known host _ d f) in Hok by done.
    cbn zeta in Hok. by destruct (writable f). }
  split; [split; [exact Hcond |] |].
  - intros (He1 & f & Hf & Hw). unfold outcome.
    rewrite (sortDictionary_known host _ d f) by done. cbn zeta.
    by rewrite Hw.
  - intros Hok. destruct (Hcond Hok) as (He1 & f & Hf & Hw).
    unfold events. rewrite (sortDictionary_known host _ d f) by done.
    cbn zeta. by rewrite Hw.
Qed.

Lemma sortDictionary_succeeds_witness :
  outcome (sortDictionary Sample.host "new.txt") Sample.disk = Ok () ∧
  events (sortDictionary Sample.host "new.txt") Sample.disk =
    [EvReadFile "new.txt"; EvCreateReadStream "new.txt";
     EvCreateWriteStream "new.txt";
     EvWrite "new.txt" windows1251 [Sample.kot; Sample.lisa];
     EvSummary 0 2].
Proof.
  assert (outcome (sortDictionary Sample.host "new.txt") Sample.disk
          = Ok ()) as Hok by (vm_compute; reflexivity).
  split; [exact Hok |].
  rewrite (proj2 (sortDictionary_succeeds Sample.host "new.txt"
                    Sample.disk) Hok).
  vm_compute. reflexivity.
Defined.

(** ** The command line *)

Lemma try_catch_no_throw {A} (m : IO A) (handler : Error → IO A) (d : Disk) :
  (∀ e, outcome m d ≠ Throw e) → try_catch m handler d = m d.
Proof.
  unfold outcome, try_catch. intros Hno.
  destruct (m d) as [[[a | e | c] d1] e1]; try done.
  by destruct (Hno e).
Qed.

Lemma shape_no_throw (host : Host) (d : Disk) (dictPath : string)
    (enc : EncodingLabel) (ls : list jsstring) (m : IO unit) (e : Error) :
  run_shape host d dictPath enc ls (m d) → outcome m d ≠ Throw e.
Proof. unfold outcome. by destruct 1. Qed.

Lemma main_add (host : Host) (a b : string) (rest : list string) (d : Disk) :
  main host ("add" :: a :: b :: rest) d = addWords host a b d.
Proof.
  unfold main, arg. cbn -[addWords deleteWords sortDictionary try_catch].
  rewrite try_catch_no_throw.
  - unfold mbind, IO_bind, io_bind, mret, IO_ret, io_ret.
    by destruct (addWords host a b d) as [[[] ?] ?].
  - intros e. unfold mbind, IO_bind, io_bind, mret, IO_ret, io_ret, outcome.
    pose proof (shape_no_throw _ _ _ _ _ _ e (addWords_shape host a b d))
      as Hno.
    unfold outcome in Hno.
    by destruct (addWords host a b d) as [[[] ?] ?].
Qed.

Lemma main_delete (host : Host) (a b : string) (rest : list string)
    (d : Disk) :
  main host ("delete" :: a :: b :: rest) d = deleteWords host a b d.
Proof.
  unfold main, arg. cbn -[addWords deleteWords sortDictionary try_catch].
  rewrite try_catch_no_throw.
  - unfold mbind, IO_bind, io_bind, mret, IO_ret, io_ret.
    by destruct (deleteWords host a b d) as [[[] ?] ?].
  - intros e. unfold mbind, IO_bind, io_bind, mret, IO_ret, io_ret, outcome.
    pose proof (shape_no_throw _ _ _ _ _ _ e (deleteWords_shape host a b d))
      as Hno.
    unfold outcome in Hno.
    by destruct (deleteWords host a b d) as [[[] ?] ?].
Qed.

Lemma main_sort (host : Host) (a : string) (rest : list string) (d : Disk) :
  main host ("sort" :: a :: rest) d = sortDictionary host a d.
Proof.
  unfold main, arg. cbn -[addWords deleteWords sortDictionary try_catch].
  apply try_catch_no_throw. intros e.
  exact (shape_no_throw _ _ _ _ _ _ e (sortDictionary_shape host a d)).
Qed.

Lemma main_usage (host : Host) (args : list string) (d : Disk) :
  ¬ runs_command args →
  main host args d =
    (Exit (match args with [] => 0 | _ => 1 end), d, []).
Proof.
  unfold runs_command, main. intros Hnot.
  destruct (String.eqb_spec (arg args 0) "") as [Hempty | Hcmd];
    cbn [orb].
  { by destruct args. }
  destruct (Nat.ltb_spec (length args) 2) as [Hshort | Hlong].
  { by destruct args. }
  destruct args as [| c args]; [done |].
  destruct (String.eqb_spec (arg (c :: args) 0) "add") as [Hadd | _].
  { destruct (Nat.ltb_spec (length (c :: args)) 3); [done |].
    destruct Hnot. left. split; [by left | done]. }
  destruct (String.eqb_spec (arg (c :: args) 0) "delete") as [Hdel | _].
  { destruct (Nat.ltb_spec (length (c :: args)) 3); [done |].
    destruct Hnot. left. split; [by right | done]. }
  destruct (String.eqb_spec (arg (c :: args) 0) "sort") as [Hsort | _].
  { destruct Hnot. by right. }
  done.
Qed.

Lemma runs_command_cases (args : list string) :
  runs_command args →
  (∃ a b rest, args = "add" :: a :: b :: rest) ∨
  (∃ a b rest, args = "delete" :: a :: b :: rest) ∨
  (∃ a rest, args = "sort" :: a :: rest).
Proof.
  unfold runs_command, arg.
  intros [[[Hc | Hc] Hlen] | [Hc Hlen]];
    destruct args as [| c [| a [| b rest]]]; cbn in *; try lia; subst.
  - left. by exists a, b, rest.
  - right; left. by exists a, b, rest.
  - right; right. by exists a, [].
  - right; right. by exists a, (b :: rest).
Qed.

Lemma shape_first_read (host : Host) (d : Disk) (dictPath : string)
    (enc : EncodingLabel) (ls : list jsstring) (m : IO unit) :
  run_shape host d dictPath enc ls (m d) →
  outcome m d = Ok () ∨ (outcome m d = Exit 1 ∧ disk_after m d = d).
Proof.
  unfold outcome, disk_after. destruct 1; cbn [fst snd]; auto.
Qed.

Lemma events_bind_prefix {A B} (m : IO A) (f : A → IO B) (d : Disk) :
  ∃ rest, events (m ≫= f) d = events m d ++ rest.
Proof.
  unfold events, mbind, IO_bind, io_bind.
  destruct (m d) as [[[a | e | c] d1] e1]; cbn [snd].
  - destruct (f a d1) as [[r2 d2] e2]. by exists e2.
  - exists []. by rewrite app_nil_r.
  - exists []. by rewrite app_nil_r.
Qed.

Lemma events_try_prefix {A} (m : IO A) (handler : Error → IO A) (d : Disk) :
  ∃ rest, events (try_catch m handler) d = events m d ++ rest.
Proof.
  unfold events, try_catch.
  destruct (m d) as [[[a | e | c] d1] e1]; cbn [snd].
  - exists []. by rewrite app_nil_r.
  - destruct (handler e d1) as [[r2 d2] e2]. by exists e2.
  - exists []. by rewrite app_nil_r.
Qed.

Lemma command_first_read {A} (dictPath : string)
    (k : EncodingLabel → IO A) (handler : Error → IO A) (d : Disk) :
  EvReadFile dictPath
    ∈ events (try_catch (detectEncoding dictPath ≫= k) handler) d.
Proof.
  destruct (events_try_prefix (detectEncoding dictPath ≫= k) handler d)
    as (r1 & ->).
  destruct (events_bind_prefix (detectEncoding dictPath) k d) as (r2 & ->).
  unfold events at 1. rewrite detectEncoding_run. apply list_elem_of_here.
Qed.

(** X20: a command line that does not name a command with its files (no
    argument, one argument, an unknown command, [add] or [delete] with one
    file) ends with exit status 0 when it is empty and 1 otherwise, and
    nothing is read or written; a command line that does name one reads the
    file of its second argument. *)
Theorem main_usage_error (host : Host) (args : list string) (d : Disk) :
  (¬ runs_command args →
   main host args d = (Exit (match args with [] => 0 | _ => 1 end), d, [])) ∧
  (runs_command args →
   EvReadFile (arg args 1) ∈ events (main host args) d).
Proof.
  split; [apply main_usage |].
  intros [(a & b & rest & ->) | [(a & b & rest & ->) | (a & rest & ->)]]%
    runs_command_cases; unfold events, arg; cbn [lookup list_lookup default].
  - rewrite main_add. apply command_first_read.
  - rewrite main_delete. apply command_first_read.
  - rewrite main_sort. apply command_first_read.
Qed.

Lemma main_usage_error_witness :
  ¬ runs_command ["add"; "dict.txt"] ∧
  main Sample.host ["add"; "dict.txt"] Sample.disk = (Exit 1, Sample.disk, []) ∧
  runs_command ["sort"; "dict.txt"] ∧
  EvReadFile "dict.txt"
    ∈ events (main Sample.host ["sort"; "dict.txt"]) Sample.disk.
Proof.
  assert (¬ runs_command ["add"; "dict.txt"]) as Hnot.
  { unfold runs_command, arg. cbn. intros [[_ Hlen] | [Heq _]]; [lia | done]. }
  assert (runs_command ["sort"; "dict.txt"]) as Hruns.
  { right. unfold arg. cbn. split; [done | lia]. }
  split; [exact Hnot |].
  split; [exact (proj1 (main_usage_error Sample.host _ Sample.disk) Hnot) |].
  split; [exact Hruns |].
  exact (proj2 (main_usage_error Sample.host _ Sample.disk) Hruns).
Defined.

(** X21: [main] with a command and its files does what the command does;
    arguments after the files are not looked at, and the [catch] of [main]
    never runs, since a command lets no error escape. *)
Theorem main_runs_command (host : Host) (a b : string) (rest : list string)
    (d : Disk) :
  main host ("add" :: a :: b :: rest) d = addWords host a b d ∧
  main host ("delete" :: a :: b :: rest) d = deleteWords host a b d ∧
  main host ("sort" :: a :: rest) d = sortDictionary host a d.
Proof.
  split; [apply main_add |]. split; [apply main_delete | apply main_sort].
Qed.

(** X22: whatever the command line, [main] ends normally or with exit
    status 0 or 1 and never with an error; the status is 0 only for the
    empty command line; unless it ends normally the disk is as it was; and
    no file but the one of the second argument is ever changed. *)
Theorem main_exit_status (host : Host) (args : list string) (d : Disk) :
  (outcome (main host args) d = Ok () ∨
   outcome (main host args) d = Exit 1 ∨
   (outcome (main host args) d = Exit 0 ∧ args = [])) ∧
  (outcome (main host args) d ≠ Ok () → disk_after (main host args) d = d) ∧
  (∀ q, q ≠ arg args 1 → disk_after (main host args) d !! q = d !! q).
Proof.
  destruct (decide (runs_command args)) as [Hruns | Hnot].
  - assert (∃ (m : IO unit) enc ls,
              main host args d = m d ∧
              run_shape host d (arg args 1) enc ls (m d))
      as (m & enc & ls & Heq & Hshape).
    { apply runs_command_cases in Hruns
        as [(a & b & rest & ->) | [(a & b & rest & ->) | (a & rest & ->)]];
        unfold arg; cbn [lookup list_lookup default].
      - exists (addWords host a b). do 2 eexists.
        split; [apply main_add | apply addWords_shape].
      - exists (deleteWords host a b). do 2 eexists.
        split; [apply main_delete | apply deleteWords_shape].
      - exists (sortDictionary host a). do 2 eexists.
        split; [apply main_sort | apply sortDictionary_shape]. }
    unfold outcome, disk_after. rewrite Heq.
    pose proof (shape_first_read _ _ _ _ _ _ Hshape) as Hout.
    unfold outcome, disk_after in Hout.
    split; [| split].
    + destruct Hout as [Hok | [Hexit _]]; auto.
    + destruct Hout as [Hok | [_ Hd]]; [by intros [] | done].
    + intros q Hq. exact (shape_frame _ _ _ _ _ _ _ Hshape Hq).
  - unfold outcome, disk_after. rewrite (main_usage host args d Hnot).
    cbn [fst snd]. split; [| split; [done | done]].
    destruct args; [right; right | right; left]; done.
Qed.

Lemma main_exit_status_witness :
  outcome (main Sample.host ["sort"; "numbers.txt"]) Sample.disk ≠ Ok () ∧
  disk_after (main Sample.host ["sort"; "numbers.txt"]) Sample.disk
    = Sample.disk ∧
  "new.txt" ≠ arg ["add"; "dict.txt"; "new.txt"] 1 ∧
  disk_after (main Sample.host ["add"; "dict.txt"; "new.txt"]) Sample.disk
    !! "new.txt" = Sample.disk !! "new.txt".
Proof.
  assert (outcome (main Sample.host ["sort"; "numbers.txt"]) Sample.disk
          ≠ Ok ()) as Hnot by (vm_compute; discriminate).
  assert ("new.txt" ≠ arg ["add"; "dict.txt"; "new.txt"] 1) as Hq
    by (vm_compute; discriminate).
  split; [exact Hnot |].
  split; [exact (proj1 (proj2 (main_exit_status Sample.host _ Sample.disk))
                   Hnot) |].
  split; [exact Hq |].
  exact (proj2 (proj2 (main_exit_status Sample.host
                         ["add"; "dict.txt"; "new.txt"] Sample.disk))
           _ Hq).
Defined.

(** ** Commands run again *)

Lemma subtract_self (P : list jsstring) :
  subtract P P = mkDeleteResult [] (len P).
Proof.
  rewrite subtract_eq.
  assert (filter (λ x, x ∉ P) P = []) as ->.
  { assert (∀ Q : list jsstring,
              (∀ x, x ∈ Q → x ∈ P) → filter (λ x, x ∉ P) Q = []) as Hnone.
    { induction Q as [| y Q IH]; intros Hall; [done |].
      rewrite filter_cons, decide_False.
      - apply IH. intros x Hx. by apply Hall, list_elem_of_further.
      - intros Hn. apply Hn, Hall, list_elem_of_here. }
    by apply Hnone. }
  f_equal. unfold len. cbn. lia.
Qed.

Lemma normalize_fixed (cmp : jsstring → jsstring → Z) (l : list jsstring) :
  NoDup l → Sorted (precedes cmp) l → normalize cmp l = mkSortResult l 0.
Proof.
  intros Hnd Hsorted. unfold normalize.
  rewrite (new_Set_fresh l Hnd), (Array_sort_sorted cmp l Hsorted).
  f_equal. lia.
Qed.

Lemma detected_readable (d : Disk) (filePath : string) (f : File) :
  d !! filePath = Some f → readable f = true →
  detected d filePath = classify (content f).
Proof.
  intros Hf Hr.
  unfold detected, outcome, detectEncoding, try_catch, readFile.
  unfold mbind, IO_bind, io_bind, mret, IO_ret, io_ret.
  by rewrite Hf, Hr.
Qed.

(** X23: [delete] with the dictionary given as its own list of words to
    delete, when it ends normally, writes the dictionary with no line at
    all and reports every line read as removed. *)
Theorem deleteWords_self (host : Host) (dictPath : string) (d : Disk) :
  outcome (deleteWords host dictPath dictPath) d = Ok () →
  events (deleteWords host dictPath dictPath) d =
    [EvReadFile dictPath; EvReadFile dictPath;
     EvCreateReadStream dictPath; EvCreateReadStream dictPath;
     EvCreateWriteStream dictPath;
     EvWrite dictPath (detected d dictPath) [];
     EvSummary
       (len (decoded_lines host (detected d dictPath)
               (file_bytes d dictPath))) 0] ∧
  file_bytes (disk_after (deleteWords host dictPath dictPath) d) dictPath
    = encodeStream host (detected d dictPath) [].
Proof.
  intros Hok.
  destruct (decide (detected d dictPath = unknown)) as [He1 | He1].
  { unfold outcome in Hok. by rewrite deleteWords_unknown in Hok. }
  destruct (detected_known _ _ He1) as (f & Hf & _ & _).
  unfold outcome, events, disk_after in *.
  rewrite (deleteWords_known host _ _ d f) in * by done.
  cbn zeta in *. rewrite subtract_self in *. cbn [del_result del_deletedCount].
  destruct (writable f); [| done]. cbn [fst snd]. split; [done |].
  unfold file_bytes. by rewrite lookup_insert_eq.
Qed.

Lemma deleteWords_self_witness :
  outcome (deleteWords Sample.host "dict.txt" "dict.txt") Sample.disk = Ok () ∧
  file_bytes
    (disk_after (deleteWords Sample.host "dict.txt" "dict.txt") Sample.disk)
    "dict.txt" = [].
Proof.
  assert (outcome (deleteWords Sample.host "dict.txt" "dict.txt") Sample.disk
          = Ok ()) as Hok by (vm_compute; reflexivity).
  split; [exact Hok |].
  rewrite (proj2 (deleteWords_self Sample.host "dict.txt" Sample.disk Hok)).
  reflexivity.
Defined.

(** X24: [sort] run a second time on the file it has written changes
    nothing, when the written bytes get the same label again and decode to
    the written lines: the second run reads the file, writes the same
    bytes and reports no duplicate removed. *)
Theorem sortDictionary_twice (host : Host) (dictPath : string) (d : Disk) :
  (∀ a b, precedes (localeCompare host) a b
          ∨ precedes (localeCompare host) b a) →
  outcome (sortDictionary host dictPath) d = Ok () →
  classify
    (encodeStream host (detected d dictPath)
       (joined (sort_sortedWords
          (normalize (localeCompare host)
             (decoded_lines host (detected d dictPath)
                (file_bytes d dictPath))))))
  = detected d dictPath →
  decoded_lines host (detected d dictPath)
    (encodeStream host (detected d dictPath)
       (joined (sort_sortedWords
          (normalize (localeCompare host)
             (decoded_lines host (detected d dictPath)
                (file_bytes d dictPath))))))
  = sort_sortedWords
      (normalize (localeCompare host)
         (decoded_lines host (detected d dictPath) (file_bytes d dictPath))) →
  sortDictionary host dictPath (disk_after (sortDictionary host dictPath) d) =
    (Ok (), disk_after (sortDictionary host dictPath) d,
     [EvReadFile dictPath; EvCreateReadStream dictPath;
      EvCreateWriteStream dictPath;
      EvWrite dictPath (detected d dictPath)
        (sort_sortedWords
           (normalize (localeCompare host)
              (decoded_lines host (detected d dictPath)
                 (file_bytes d dictPath))));
      EvSummary 0
        (len (sort_sortedWords
           (normalize (localeCompare host)
              (decoded_lines host (detected d dictPath)
                 (file_bytes d dictPath)))))]).
Proof.
  intros Htotal Hok Hlabel Hlines.
  set (enc := detected d dictPath) in *.
  set (ls := sort_sortedWords
               (normalize (localeCompare host)
                  (decoded_lines host enc (file_bytes d dictPath)))) in *.
  assert (enc ≠ unknown) as He1.
  { intros He1. unfold outcome in Hok.
    by rewrite sortDictionary_unknown in Hok. }
  destruct (detected_known _ _ He1) as (f & Hf & Hr & _).
  assert (writable f = true) as Hw.
  { unfold outcome in Hok.
    rewrite (sortDictionary_known host _ d f) in Hok by done.
    cbn zeta in Hok. by destruct (writable f). }
  assert (disk_after (sortDictionary host dictPath) d =
          <[dictPath := mkFile true true (encodeStream host enc (joined ls))]> d)
    as Hd1.
  { unfold disk_after. rewrite (sortDictionary_known host _ d f) by done.
    cbn zeta. by rewrite Hw, Hr. }
  rewrite Hd1.
  set (bytes := encodeStream host enc (joined ls)) in *.
  set (d1 := <[dictPath := mkFile true true bytes]> d).
  assert (d1 !! dictPath = Some (mkFile true true bytes)) as Hf1
    by apply lookup_insert_eq.
  assert (detected d1 dictPath = enc) as Henc1
    by by rewrite (detected_readable d1 dictPath _ Hf1).
  assert (file_bytes d1 dictPath = bytes) as Hb1
    by (unfold file_bytes; by rewrite Hf1).
  rewrite (sortDictionary_known host _ d1 _) by (by rewrite ?Henc1).
  cbn zeta. cbn [writable readable]. rewrite Henc1, Hb1, Hlines.
  assert (normalize (localeCompare host) ls = mkSortResult ls 0) as ->.
  { apply normalize_fixed.
    - apply Array_sort_NoDup, new_Set_NoDup.
    - by apply Array_sort_Sorted. }
  cbn [sort_sortedWords sort_duplicatesRemoved].
  unfold d1. by rewrite insert_insert_eq.
Qed.

Lemma sortDictionary_twice_witness :
  sortDictionary Sample.host "new.txt"
    (disk_after (sortDictionary Sample.host "new.txt") Sample.disk) =
  (Ok (), disk_after (sortDictionary Sample.host "new.txt") Sample.disk,
   [EvReadFile "new.txt"; EvCreateReadStream "new.txt";
    EvCreateWriteStream "new.txt";
    EvWrite "new.txt" windows1251 [Sample.kot; Sample.lisa];
    EvSummary 0 2]).
Proof.
  rewrite (sortDictionary_twice Sample.host "new.txt" Sample.disk).
  - reflexivity.
  - apply Sample_compare_total.
  - vm_compute. reflexivity.
  - vm_compute. reflexivity.
  - vm_compute. reflexivity.
Defined.

(** X25: [add] reports no added word exactly when every new word is in the
    dictionary already. *)
Theorem merge_adds_nothing (cmp : jsstring → jsstring → Z)
    (A B : list jsstring) :
  add_addedCount (merge cmp A B) = 0%Z ↔ ∀ x, x ∈ B → x ∈ A.
Proof.
  rewrite merge_added. unfold new_set. split.
  - intros Hzero x Hx.
    assert (size (list_to_set B ∖ list_to_set A : gset jsstring) = 0)
      as Hsize by lia.
    apply size_empty_iff in Hsize.
    destruct (decide (x ∈ A)) as [| Hn]; [done |].
    assert (x ∈ (list_to_set B ∖ list_to_set A : gset jsstring)) as Hin.
    { apply elem_of_difference. by rewrite !elem_of_list_to_set. }
    rewrite Hsize in Hin. by apply elem_of_empty in Hin.
  - intros Hall.
    assert (list_to_set B ∖ list_to_set A ≡ (∅ : gset jsstring)) as Hempty.
    { intros x. rewrite elem_of_difference, !elem_of_list_to_set.
      split; [| by intros ?%elem_of_empty].
      intros [Hb Ha]. destruct Ha. by apply Hall. }
    apply size_empty_iff in Hempty. lia.
Qed.
